(** * frisby/spec.js: the FrisbySpec builder and its execution model

    A shallow embedding of [src/frisby/spec.js].  JavaScript values are a
    first-order datatype, objects with reference semantics (promises, specs,
    responses) live in heaps indexed by naturals, the closures the source
    creates are constructors of [Closure] interpreted by [call], and the
    promise machinery (reactions, microtask queue, the resolution procedure
    for thenables) is written out, because [FrisbySpec.then] depends on it.

    Conventions:
    - numbers are integers and values are immutable trees: where the source
      assigns a property of an object it was handed ([params.body = ...]),
      the model continues with the updated copy;
    - a function supplied by a caller is [VFun id]; the host gives it a body
      that reads the state and returns or throws.  It may return an
      asynchronous value that exists already (a promise, a started spec), it
      does not call methods of a spec itself;
    - the transport answers [json()] and [text()] with a promise that is
      settled already, and the network settles the promise of a [fetch]
      through [deliver];
    - the ambient [fail] and [expect] of the test runner are seen through the
      events [EvFail] and [EvExpectToBeNull] of the trace. *)

From Stdlib Require Import ZArith String Ascii List Bool Lia.
From stdpp Require Import base strings list pretty.
Import ListNotations.
Local Open Scope string_scope.
Local Open Scope list_scope.
Local Open Scope Z_scope.

(** ** JavaScript values *)

(** [VFun] is a function of a caller, [VResolveFn] and [VRejectFn] are the
    resolving functions of a promise, [VPromise], [VSpec] and [VResponse]
    refer to objects of the heaps, and [VClosure] is a function the source
    itself creates. *)
#[warnings="-register-all"]
Inductive Val : Type :=
| VUndefined
| VNull
| VBool (b : bool)
| VNum (n : Z)
| VStr (s : string)
| VArr (xs : list Val)
| VObj (props : list (string * Val))
| VError (name message : string)
| VFun (f : nat)
| VResolveFn (p : nat)
| VRejectFn (p : nat)
| VPromise (p : nat)
| VSpec (s : nat)
| VResponse (r : nat)
| VClosure (c : Closure)
with Closure : Type :=
(* fromJSON: response => response.json() *)
| FromJSON_decode
(* fromJSON: responseBody => { this._response._body = responseBody; ... } *)
| FromJSON_store (this : nat)
(* fetch: response => { this._response = response; ... } *)
| Fetch_decode (this : nat)
(* fetch: responseBody => { this._response._body = responseBody; ... } *)
| Fetch_store (this : nat)
(* this._fetchErrorHandler, bound to a spec or passed as it is *)
| ErrorHandler (this : option nat)
(* then: responseBody => { ... fn ... } *)
| ThenCb (this : nat) (fn : Val)
(* then: () => doneFn() *)
| MoveDone (doneFn : Val)
(* done: () => this._doneFn ? doneFn() : null *)
| DoneCb (this : nat) (doneFn : Val)
(* _runExpects: () => { for (...) this._expects[i].call(this, this._response) } *)
| RunExpects (this : nat)
(* _getExpectRunner: response => { try { expectHandler.apply(...) } catch (e) { ... } } *)
| ExpectRunner (this : nat) (expectHandler : Val) (expectArgs : list Val)
    (expectPass : bool).

(** Outcome of evaluating a JavaScript expression or call. *)
Inductive Completion (A : Type) : Type :=
| Normal (a : A)
| Throw (e : Val).
Arguments Normal {A} a.
Arguments Throw {A} e.

Definition TIMEOUT_DEFAULT : Z := 5000.

(** ToBoolean. Numbers are modelled as integers, so NaN does not occur. *)
Definition truthy (v : Val) : bool :=
  match v with
  | VUndefined | VNull => false
  | VBool b => b
  | VNum n => negb (n =? 0)
  | VStr s => negb (String.eqb s EmptyString)
  | _ => true
  end.

Definition is_undefined (v : Val) : bool :=
  match v with VUndefined => true | _ => false end.

Definition is_nullish (v : Val) : bool :=
  match v with VUndefined | VNull => true | _ => false end.

(** [typeof v === 'function'] *)
Definition is_callable (v : Val) : bool :=
  match v with
  | VFun _ | VResolveFn _ | VRejectFn _ | VClosure _ => true
  | _ => false
  end.

(** lodash's [_.isObject]: objects, arrays and functions, not [null]. *)
Definition isObject (v : Val) : bool :=
  match v with
  | VUndefined | VNull | VBool _ | VNum _ | VStr _ => false
  | _ => true
  end.

(** [v instanceof FrisbySpec] and [v instanceof Promise] *)
Definition instanceof_FrisbySpec (v : Val) : bool :=
  match v with VSpec _ => true | _ => false end.

Definition instanceof_Promise (v : Val) : bool :=
  match v with VPromise _ => true | _ => false end.

(** [a || b] *)
Definition js_or (a b : Val) : Val := if truthy a then a else b.

(** ** Plain objects: insertion-ordered property lists *)

Fixpoint obj_lookup (k : string) (props : list (string * Val)) : option Val :=
  match props with
  | [] => None
  | (k', v) :: rest => if String.eqb k k' then Some v else obj_lookup k rest
  end.

(** Assignment [o[k] = v]: overwrite in place, or append a new property. *)
Fixpoint obj_set (k : string) (v : Val) (props : list (string * Val))
  : list (string * Val) :=
  match props with
  | [] => [(k, v)]
  | (k', v') :: rest =>
      if String.eqb k k' then (k, v) :: rest else (k', v') :: obj_set k v rest
  end.

Definition has_own (k : string) (props : list (string * Val)) : bool :=
  match obj_lookup k props with Some _ => true | None => false end.

Definition type_error (msg : string) : Val := VError "TypeError" msg.

(** The [stack] of an error begins with its name and message. *)
Definition error_stack (name message : string) : string :=
  name +:+ ": " +:+ message.

(** Property read [v.k].  Reading from [undefined] or [null] throws; objects
    of the host (promises, specs, responses, functions) and primitives have
    none of the keys the source reads through this function. *)
Definition get_prop (v : Val) (k : string) : Completion Val :=
  match v with
  | VUndefined | VNull =>
      Throw (type_error ("Cannot read property '" +:+ k +:+ "' of undefined"))
  | VObj props =>
      Normal (match obj_lookup k props with Some x => x | None => VUndefined end)
  | VError name message =>
      Normal (if String.eqb k "stack" then VStr (error_stack name message)
              else if String.eqb k "message" then VStr message
              else if String.eqb k "name" then VStr name
              else VUndefined)
  | _ => Normal VUndefined
  end.

(** Own enumerable string-keyed properties, as [Object.assign] reads them
    from a source.  Only plain objects are given properties here; [null],
    [undefined] and the other values contribute nothing. *)
Definition own_props (v : Val) : list (string * Val) :=
  match v with
  | VObj props => props
  | _ => []
  end.

Definition assign_props (target src : list (string * Val))
  : list (string * Val) :=
  fold_left (fun acc kv => obj_set (fst kv) (snd kv) acc) src target.

(** [Object.assign(target, ...sources)] *)
Definition Object_assign (target : list (string * Val)) (sources : list Val)
  : list (string * Val) :=
  fold_left (fun acc src => assign_props acc (own_props src)) sources target.

(** ** The spec object *)

Record Request : Type := mkRequest {
  req_url : Val;
  req_init : list (string * Val)
}.

Record FrisbySpec : Type := mkFrisbySpec {
  _fetch : option nat;
  _doneFn : Val;
  _request : option Request;
  _response : Val;
  _expects : list Val;
  _expectError : Val;
  _timeout : Val;
  _setupDefaults : Val;
  _lastResult : Val
}.

(** [constructor()] *)
Definition constructor : FrisbySpec :=
  {| _fetch := None;
     _doneFn := VUndefined;
     _request := None;
     _response := VUndefined;
     _expects := [];
     _expectError := VUndefined;
     _timeout := VNum TIMEOUT_DEFAULT;
     _setupDefaults := VObj [];
     _lastResult := VUndefined |}.

(** ** Heaps, the microtask queue and the observable trace *)

Record Response : Type := mkResponse {
  res_url : string;
  res_status : Z;
  res_statusText : string;
  res_headers : list (string * string);
  res_body : string;
  res_size : Z;
  res_timeout : Z;
  _body : Val
}.

Inductive PromiseState : Type :=
| Pending
| Fulfilled (v : Val)
| Rejected (e : Val).

Record Reaction : Type := mkReaction {
  onFulfilled : Val;
  onRejected : Val;
  derived : nat
}.

Record PromiseCell : Type := mkPromiseCell {
  pstate : PromiseState;
  reactions : list Reaction
}.

Inductive Job : Type :=
| ReactionJob (handler : Val) (fulfilled : bool) (argument : Val) (target : nat)
| ResolveThenableJob (promise : nat) (thenable : Val).

(** What the collaborators of the spec observe. *)
Inductive Event : Type :=
| EvCall (f : nat) (args : list Val)
| EvFail (err : Val)
| EvExpectToBeNull (actual : Val)
| EvFetch (request : Request) (timeout : Val) (p : nat).

Record State : Type := mkState {
  promises : list PromiseCell;
  specs : list FrisbySpec;
  responses : list Response;
  jobs : list Job;
  trace : list Event;
  expectHandlers : list (string * Val)
}.

Definition initial_state : State :=
  {| promises := []; specs := []; responses := []; jobs := []; trace := [];
     expectHandlers := [] |}.

(** The collaborators the source takes from its environment: the functions
    callers pass in (continuations, handlers of the registry, error and done
    callbacks), the ambient [fail] and [expect] of the test runner, the JSON
    codec and lodash's [_.merge].  A caller's function reads the state and
    completes; it does not itself call back into the spec. *)
Record Host : Type := mkHost {
  fn_body : nat -> State -> list Val -> Completion Val;
  fail_defined : bool;
  expect_defined : bool;
  JSON_stringify : Val -> option string;
  JSON_parse : string -> option Val;
  merge : Val -> Val -> Val
}.

(** ** State and exception monad *)

Definition M (A : Type) : Type := State -> Completion A * State.

Definition ret {A} (a : A) : M A := fun st => (Normal a, st).

Definition throw {A} (e : Val) : M A := fun st => (Throw e, st).

Definition bind {A B} (m : M A) (k : A -> M B) : M B :=
  fun st =>
    match m st with
    | (Normal a, st') => k a st'
    | (Throw e, st') => (Throw e, st')
    end.

(** [try { m } catch (e) { h e }] *)
Definition try_catch {A} (m : M A) (h : Val -> M A) : M A :=
  fun st =>
    match m st with
    | (Normal a, st') => (Normal a, st')
    | (Throw e, st') => h e st'
    end.

Definition lift {A} (c : Completion A) : M A := fun st => (c, st).

Definition modify (f : State -> State) : M unit := fun st => (Normal tt, f st).

Definition gets {A} (f : State -> A) : M A := fun st => (Normal (f st), st).

Declare Scope js_scope.
Delimit Scope js_scope with js.
Notation "x <- m ;; k" := (bind m (fun x => k))
  (at level 100, m at next level, right associativity) : js_scope.
Notation "m ;;; k" := (bind m (fun _ => k))
  (at level 100, right associativity) : js_scope.
Local Open Scope js_scope.

Definition set_promises (ps : list PromiseCell) (st : State) : State :=
  {| promises := ps; specs := specs st; responses := responses st;
     jobs := jobs st; trace := trace st; expectHandlers := expectHandlers st |}.

Definition set_specs (ss : list FrisbySpec) (st : State) : State :=
  {| promises := promises st; specs := ss; responses := responses st;
     jobs := jobs st; trace := trace st; expectHandlers := expectHandlers st |}.

Definition set_responses (rs : list Response) (st : State) : State :=
  {| promises := promises st; specs := specs st; responses := rs;
     jobs := jobs st; trace := trace st; expectHandlers := expectHandlers st |}.

Definition set_jobs (js : list Job) (st : State) : State :=
  {| promises := promises st; specs := specs st; responses := responses st;
     jobs := js; trace := trace st; expectHandlers := expectHandlers st |}.

Definition set_trace (tr : list Event) (st : State) : State :=
  {| promises := promises st; specs := specs st; responses := responses st;
     jobs := jobs st; trace := tr; expectHandlers := expectHandlers st |}.

Definition set_expectHandlers (hs : list (string * Val)) (st : State) : State :=
  {| promises := promises st; specs := specs st; responses := responses st;
     jobs := jobs st; trace := trace st; expectHandlers := hs |}.

Definition emit (ev : Event) : M unit :=
  modify (fun st => set_trace (trace st ++ [ev]) st).

Definition enqueue (j : Job) (st : State) : State :=
  set_jobs (jobs st ++ [j]) st.

(** Field updates of a spec object. *)
Definition with_fetch (p : option nat) (o : FrisbySpec) : FrisbySpec :=
  {| _fetch := p; _doneFn := _doneFn o; _request := _request o;
     _response := _response o; _expects := _expects o;
     _expectError := _expectError o; _timeout := _timeout o;
     _setupDefaults := _setupDefaults o; _lastResult := _lastResult o |}.

Definition with_doneFn (v : Val) (o : FrisbySpec) : FrisbySpec :=
  {| _fetch := _fetch o; _doneFn := v; _request := _request o;
     _response := _response o; _expects := _expects o;
     _expectError := _expectError o; _timeout := _timeout o;
     _setupDefaults := _setupDefaults o; _lastResult := _lastResult o |}.

Definition with_request (r : option Request) (o : FrisbySpec) : FrisbySpec :=
  {| _fetch := _fetch o; _doneFn := _doneFn o; _request := r;
     _response := _response o; _expects := _expects o;
     _expectError := _expectError o; _timeout := _timeout o;
     _setupDefaults := _setupDefaults o; _lastResult := _lastResult o |}.

Definition with_response (v : Val) (o : FrisbySpec) : FrisbySpec :=
  {| _fetch := _fetch o; _doneFn := _doneFn o; _request := _request o;
     _response := v; _expects := _expects o;
     _expectError := _expectError o; _timeout := _timeout o;
     _setupDefaults := _setupDefaults o; _lastResult := _lastResult o |}.

Definition with_expects (es : list Val) (o : FrisbySpec) : FrisbySpec :=
  {| _fetch := _fetch o; _doneFn := _doneFn o; _request := _request o;
     _response := _response o; _expects := es;
     _expectError := _expectError o; _timeout := _timeout o;
     _setupDefaults := _setupDefaults o; _lastResult := _lastResult o |}.

Definition with_expectError (v : Val) (o : FrisbySpec) : FrisbySpec :=
  {| _fetch := _fetch o; _doneFn := _doneFn o; _request := _request o;
     _response := _response o; _expects := _expects o;
     _expectError := v; _timeout := _timeout o;
     _setupDefaults := _setupDefaults o; _lastResult := _lastResult o |}.

Definition with_timeout (v : Val) (o : FrisbySpec) : FrisbySpec :=
  {| _fetch := _fetch o; _doneFn := _doneFn o; _request := _request o;
     _response := _response o; _expects := _expects o;
     _expectError := _expectError o; _timeout := v;
     _setupDefaults := _setupDefaults o; _lastResult := _lastResult o |}.

Definition with_setupDefaults (v : Val) (o : FrisbySpec) : FrisbySpec :=
  {| _fetch := _fetch o; _doneFn := _doneFn o; _request := _request o;
     _response := _response o; _expects := _expects o;
     _expectError := _expectError o; _timeout := _timeout o;
     _setupDefaults := v; _lastResult := _lastResult o |}.

Definition with_lastResult (v : Val) (o : FrisbySpec) : FrisbySpec :=
  {| _fetch := _fetch o; _doneFn := _doneFn o; _request := _request o;
     _response := _response o; _expects := _expects o;
     _expectError := _expectError o; _timeout := _timeout o;
     _setupDefaults := _setupDefaults o; _lastResult := v |}.

(** The object a spec reference denotes.  References are only made by
    [new_FrisbySpec]; a dangling one reads as a fresh object. *)
Definition spec_of (this : nat) (st : State) : FrisbySpec :=
  match specs st !! this with Some o => o | None => constructor end.

Definition update_spec (this : nat) (f : FrisbySpec -> FrisbySpec) : M unit :=
  modify (fun st => set_specs (alter f this (specs st)) st).

(** [new FrisbySpec()] *)
Definition new_FrisbySpec : M nat :=
  fun st => (Normal (length (specs st)), set_specs (specs st ++ [constructor]) st).

(** ** Methods that touch only the fields of the spec object *)

Definition SpecM (A : Type) : Type := FrisbySpec -> Completion A * FrisbySpec.

(** Run a field-level method on the object behind a reference. *)
Definition on_spec {A} (this : nat) (m : SpecM A) : M A :=
  fun st =>
    let r := m (spec_of this st) in
    (fst r, set_specs (<[this := snd r]> (specs st)) st).

Section Methods.

Context (H : Host).

(** [setup(opts, replace)] *)
Definition setup (this : nat) (opts replace : Val) : SpecM Val :=
  fun o =>
    let o1 :=
      with_setupDefaults
        (if truthy replace then opts else merge H (_setupDefaults o) opts) o in
    match get_prop (_setupDefaults o1) "request" with
    | Throw e => (Throw e, o1)
    | Normal request =>
        match get_prop request "timeout" with
        | Throw e => (Throw e, o1)
        | Normal t =>
            (Normal (VSpec this),
             with_timeout (js_or t (VNum TIMEOUT_DEFAULT)) o1)
        end
    end.

(** [timeout(timeout)] *)
Definition timeout (this : nat) (timeout : Val) : SpecM Val :=
  fun o =>
    if negb (truthy timeout) then
      match get_prop (_setupDefaults o) "request" with
      | Throw e => (Throw e, o)
      | Normal request =>
          if truthy request then
            match get_prop request "timeout" with
            | Throw e => (Throw e, o)
            | Normal t => if truthy t then (Normal t, o) else (Normal (_timeout o), o)
            end
          else (Normal (_timeout o), o)
      end
    else (Normal (VSpec this), with_timeout timeout o).

(** [catch(fn)] *)
Definition catch (this : nat) (fn : Val) : SpecM Val :=
  fun o => (Normal (VSpec this), with_expectError fn o).

Definition not_started : Val :=
  VError "Error"
    "Frisby spec not started. You must call fetch() first to begin a Frisby test.".

(** [_ensureHasFetched()] *)
Definition _ensureHasFetched : SpecM unit :=
  fun o =>
    match _fetch o with
    | None => (Throw not_started, o)
    | Some _ => (Normal tt, o)
    end.

(** [_addExpect(fn)] *)
Definition _addExpect (this : nat) (fn : Val) : SpecM Val :=
  fun o => (Normal (VSpec this), with_expects (_expects o ++ [fn]) o).

(** String coercion of the values used as a property key or spliced into a
    message; objects other than errors print as plain objects do. *)
Definition to_string (v : Val) : string :=
  match v with
  | VUndefined => "undefined"
  | VNull => "null"
  | VBool true => "true"
  | VBool false => "false"
  | VNum n => pretty n
  | VStr s => s
  | VError name message => error_stack name message
  | _ => "[object Object]"
  end.

Definition not_defined (expectName : Val) : Val :=
  VError "Error" ("Expectation '" +:+ to_string expectName +:+ "' is not defined.").

(** [_getExpectRunner(expectName, expectArgs, expectPass)], given the
    contents of the registry [expectHandlers] at the time of the call. *)
Definition _getExpectRunner (registry : list (string * Val)) (this : nat)
    (expectName : Val) (expectArgs : list Val) (expectPass : bool) : SpecM Val :=
  fun o =>
    if is_callable expectName then
      _addExpect this (VClosure (ExpectRunner this expectName expectArgs expectPass)) o
    else
      match obj_lookup (to_string expectName) registry with
      | None | Some VUndefined => (Throw (not_defined expectName), o)
      | Some expectHandler =>
          _addExpect this
            (VClosure (ExpectRunner this expectHandler expectArgs expectPass)) o
      end.

(** [expect(expectName, ...expectArgs)] *)
Definition expect (registry : list (string * Val)) (this : nat)
    (expectName : Val) (expectArgs : list Val) : SpecM Val :=
  _getExpectRunner registry this expectName expectArgs true.

(** [expectNot(expectName, ...expectArgs)] *)
Definition expectNot (registry : list (string * Val)) (this : nat)
    (expectName : Val) (expectArgs : list Val) : SpecM Val :=
  _getExpectRunner registry this expectName expectArgs false.

(** [FrisbySpec.addExpectHandler] and [FrisbySpec.removeExpectHandler] *)
Definition addExpectHandler (expectName : Val) (expectFn : Val) : M unit :=
  modify (fun st =>
    set_expectHandlers (obj_set (to_string expectName) expectFn (expectHandlers st)) st).


End Methods.

(** ** Promises *)

Definition new_promise (ps : PromiseState) : M nat :=
  fun st =>
    (Normal (length (promises st)),
     set_promises (promises st ++ [{| pstate := ps; reactions := [] |}]) st).

Definition settled (ok : bool) (v : Val) : PromiseState :=
  if ok then Fulfilled v else Rejected v.

Definition reaction_job (ok : bool) (v : Val) (r : Reaction) : Job :=
  ReactionJob (if ok then onFulfilled r else onRejected r) ok v (derived r).

(** Fulfil ([ok]) or reject a pending promise and schedule its reactions in
    the order they were registered; a settled promise is left as it is. *)
Definition settle (p : nat) (ok : bool) (v : Val) (st : State) : State :=
  match promises st !! p with
  | Some {| pstate := Pending; reactions := rs |} =>
      set_jobs (jobs st ++ map (reaction_job ok v) rs)
        (set_promises
           (<[p := {| pstate := settled ok v; reactions := [] |}]> (promises st)) st)
  | _ => st
  end.

(** Does resolving a promise with [x] have to call [x.then]?  Promises and
    specs both have a [then] method; so does a plain object that carries a
    callable [then]. *)
Definition is_thenable (x : Val) : bool :=
  match x with
  | VPromise _ | VSpec _ => true
  | VObj props =>
      match obj_lookup "then" props with
      | Some f => is_callable f
      | None => false
      end
  | _ => false
  end.

(** The promise resolution procedure. *)
Definition resolve (p : nat) (x : Val) (st : State) : State :=
  match x with
  | VPromise q =>
      if Nat.eqb p q
      then settle p false (type_error "Chaining cycle detected for promise") st
      else enqueue (ResolveThenableJob p x) st
  | _ =>
      if is_thenable x then enqueue (ResolveThenableJob p x) st
      else settle p true x st
  end.

Definition add_reaction (p : nat) (r : Reaction) (st : State) : State :=
  set_promises
    (alter (fun c => {| pstate := pstate c; reactions := reactions c ++ [r] |}) p
       (promises st)) st.

(** Attach the reaction of [p.then(onF, onR)] with derived promise [d]: kept
    with [p] while it is pending, queued at once when [p] has settled. *)
Definition register (p d : nat) (onF onR : Val) (st : State) : State :=
  match promises st !! p with
  | Some c =>
      match pstate c with
      | Pending =>
          add_reaction p {| onFulfilled := onF; onRejected := onR; derived := d |} st
      | Fulfilled v => enqueue (ReactionJob onF true v d) st
      | Rejected e => enqueue (ReactionJob onR false e d) st
      end
  | None => st
  end.

(** [Promise.prototype.then] on the promise [p]; the result is the derived
    promise. *)
Definition promise_then (p : nat) (onF onR : Val) : M nat :=
  d <- new_promise Pending ;;
  modify (register p d onF onR) ;;;
  ret d.

(** [p.catch(onR)] *)
Definition promise_catch (p : nat) (onR : Val) : M nat :=
  promise_then p VUndefined onR.

(** ** The transport: node-fetch's [Response] and [fetch] *)

Definition lower_ascii (c : ascii) : ascii :=
  let n := nat_of_ascii c in
  if (Nat.leb 65 n && Nat.leb n 90)%bool then ascii_of_nat (n + 32) else c.

Fixpoint lower (s : string) : string :=
  match s with
  | EmptyString => EmptyString
  | String c rest => String (lower_ascii c) (lower rest)
  end.

Fixpoint header_lookup (name : string) (hs : list (string * string))
  : option string :=
  match hs with
  | [] => None
  | (k, v) :: rest => if String.eqb name k then Some v else header_lookup name rest
  end.

(** [headers.has(name)] and [headers.get(name)]: names are kept in lower
    case and compared so. *)
Definition headers_has (hs : list (string * string)) (name : string) : bool :=
  match header_lookup (lower name) hs with Some _ => true | None => false end.

Definition headers_get (hs : list (string * string)) (name : string) : Val :=
  match header_lookup (lower name) hs with Some v => VStr v | None => VNull end.

(** [hay.indexOf(needle)] *)
Definition indexOf (hay needle : string) : Z :=
  match String.index 0 needle hay with
  | Some i => Z.of_nat i
  | None => -1
  end.

(** The test of [fetch]'s first callback:
    [headers.has('Content-Type') && ~headers.get('Content-Type').indexOf('json')] *)
Definition declares_json (hs : list (string * string)) : bool :=
  headers_has hs "Content-Type" &&
  match headers_get hs "Content-Type" with
  | VStr ct => truthy (VNum (Z.lnot (indexOf ct "json")))
  | _ => false
  end.

Definition new_response (r : Response) : M nat :=
  fun st => (Normal (length (responses st)), set_responses (responses st ++ [r]) st).

Definition set_body (v : Val) (r : Response) : Response :=
  {| res_url := res_url r; res_status := res_status r;
     res_statusText := res_statusText r; res_headers := res_headers r;
     res_body := res_body r; res_size := res_size r;
     res_timeout := res_timeout r; _body := v |}.

Definition invalid_json : Val := VError "FetchError" "invalid json response body".

Section Engine.

Context (H : Host).

(** [response.json()] and [response.text()]: a promise for the decoded
    payload, rejected when the payload is not JSON. *)
Definition response_json (r : Response) : M Val :=
  p <- match JSON_parse H (res_body r) with
       | Some v => new_promise (Fulfilled v)
       | None => new_promise (Rejected invalid_json)
       end ;;
  ret (VPromise p).

Definition response_text (r : Response) : M Val :=
  p <- new_promise (Fulfilled (VStr (res_body r))) ;;
  ret (VPromise p).

(** node-fetch's [fetch(request, { timeout })]: the request goes out and a
    pending promise comes back, settled later by [deliver]. *)
Definition node_fetch (request : Request) (timeout : Val) : M nat :=
  p <- new_promise Pending ;;
  emit (EvFetch request timeout p) ;;;
  ret p.

(** ** Calls of functions that are not closures of the source *)

Definition not_a_function : Val := type_error "not a function".

Definition call_prim (f : Val) (args : list Val) : M Val :=
  match f with
  | VFun id =>
      emit (EvCall id args) ;;;
      (fun st => (fn_body H id st args, st))
  | VResolveFn p =>
      modify (resolve p (hd VUndefined args)) ;;; ret VUndefined
  | VRejectFn p =>
      modify (settle p false (hd VUndefined args)) ;;; ret VUndefined
  | _ => throw not_a_function
  end.

(** ** The failure channel *)

(** [_fetchErrorHandler(err)], with the [this] it is invoked on. *)
Definition _fetchErrorHandler (this : option nat) (err : Val) : M Val :=
  match this with
  | None => throw (type_error "Cannot read property '_expectError' of undefined")
  | Some s =>
      o <- gets (spec_of s) ;;
      if truthy (_expectError o) then call_prim (_expectError o) [err]
      else if fail_defined H then emit (EvFail err) ;;; ret VUndefined
      else if expect_defined H then
        stack <- lift (get_prop err "stack") ;;
        emit (EvExpectToBeNull stack) ;;; ret VUndefined
      else throw err
  end.

(** ** [then], [done], [promise] *)

(** [then(fn)] *)
Definition then_ (this : nat) (fn : Val) : M Val :=
  if instanceof_FrisbySpec fn then ret fn
  else
    on_spec this _ensureHasFetched ;;;
    o <- gets (spec_of this) ;;
    match _fetch o with
    | None => throw not_started
    | Some p =>
        d <- promise_then p (VClosure (ThenCb this fn)) VUndefined ;;
        promise_catch d (VClosure (ErrorHandler (Some this))) ;;;
        ret (VSpec this)
    end.

(** The method call [v.then(fn)] for a value that is a promise or a spec. *)
Definition invoke_then (v : Val) (fn : Val) : M Val :=
  match v with
  | VPromise p => d <- promise_then p fn VUndefined ;; ret (VPromise d)
  | VSpec s => then_ s fn
  | _ => throw not_a_function
  end.

(** [done(doneFn)] *)
Definition done (this : nat) (doneFn : Val) : M Val :=
  update_spec this (with_doneFn doneFn) ;;;
  o <- gets (spec_of this) ;;
  match _fetch o with
  | None => throw (type_error "Cannot read property 'then' of undefined")
  | Some p =>
      promise_then p (VClosure (DoneCb this doneFn)) VUndefined ;;;
      ret (VSpec this)
  end.

(** [promise()] *)
Definition promise (this : nat) : M (option nat) :=
  o <- gets (spec_of this) ;; ret (_fetch o).

(** [_runExpects()] *)
Definition _runExpects (this : nat) : M Val :=
  on_spec this _ensureHasFetched ;;;
  then_ this (VClosure (RunExpects this)) ;;;
  ret (VSpec this).

(** ** The closures of the source *)

(** The closure [_getExpectRunner] stores:
    [try { expectHandler.apply(this, [response].concat(expectArgs)) }
     catch (e) { if (expectPass === true) this._fetchErrorHandler(e) }] *)
Definition expect_runner (this : nat) (expectHandler : Val)
    (expectArgs : list Val) (expectPass : bool) (response : Val) : M Val :=
  try_catch
    (call_prim expectHandler (response :: expectArgs) ;;; ret VUndefined)
    (fun e =>
       if expectPass then _fetchErrorHandler (Some this) e ;;; ret VUndefined
       else ret VUndefined).

(** One element of [_expects], called on the response. *)
Definition call_expect (f : Val) (response : Val) : M Val :=
  match f with
  | VClosure (ExpectRunner this expectHandler expectArgs expectPass) =>
      expect_runner this expectHandler expectArgs expectPass response
  | _ => call_prim f [response]
  end.

(** [for (i = 0; i < this._expects.length; i++)
      this._expects[i].call(this, this._response)]
    over the list as it is when the loop starts: nothing the loop calls
    changes a spec. *)
Fixpoint run_expects_loop (this : nat) (es : list Val) : M unit :=
  match es with
  | [] => ret tt
  | e :: rest =>
      o <- gets (spec_of this) ;;
      call_expect e (_response o) ;;;
      run_expects_loop this rest
  end.

(** The callback [then] attaches to [_fetch], applied to the value of
    [_fetch]; [call_fn] is the call [fn(responseBody)]. *)
Definition then_callback (call_fn : list Val -> M Val) (this : nat) (fn : Val)
    (responseBody : Val) : M Val :=
  o <- gets (spec_of this) ;;
  result <-
    (if truthy (_lastResult o) &&
        (instanceof_FrisbySpec (_lastResult o) || instanceof_Promise (_lastResult o))
     then
       result <- invoke_then (_lastResult o) fn ;;
       o' <- gets (spec_of this) ;;
       (if truthy (_doneFn o') then
          invoke_then (_lastResult o') (VClosure (MoveDone (_doneFn o'))) ;;;
          update_spec this (with_doneFn VNull)
        else ret tt) ;;;
       ret result
     else
       result <- call_fn [responseBody] ;;
       update_spec this (with_lastResult result) ;;;
       ret result) ;;
  if truthy result then ret result else ret responseBody.

(** Assignment [this._response._body = responseBody]. *)
Definition store_body (this : nat) (responseBody : Val) : M unit :=
  o <- gets (spec_of this) ;;
  match _response o with
  | VResponse r =>
      modify (fun st => set_responses (alter (set_body responseBody) r (responses st)) st)
  | VUndefined | VNull =>
      throw (type_error "Cannot set property '_body' of undefined")
  | _ => ret tt
  end.

(** Calling a function value.  The closures of the source are interpreted
    here; the recursion follows the function a [then] callback wraps. *)
Fixpoint call (f : Val) (args : list Val) {struct f} : M Val :=
  match f with
  | VClosure c =>
      match c with
      | FromJSON_decode =>
          (* response => response.json() *)
          match hd VUndefined args with
          | VResponse r =>
              st_r <- gets (fun st => responses st !! r) ;;
              match st_r with
              | Some resp => response_json resp
              | None => throw not_a_function
              end
          | _ => throw not_a_function
          end
      | FromJSON_store this | Fetch_store this =>
          (* responseBody => { this._response._body = responseBody;
                               this._runExpects(); return responseBody } *)
          store_body this (hd VUndefined args) ;;;
          _runExpects this ;;;
          ret (hd VUndefined args)
      | Fetch_decode this =>
          (* response => { this._response = response; ... } *)
          update_spec this (with_response (hd VUndefined args)) ;;;
          match hd VUndefined args with
          | VResponse r =>
              st_r <- gets (fun st => responses st !! r) ;;
              match st_r with
              | Some resp =>
                  if declares_json (res_headers resp) then response_json resp
                  else response_text resp
              | None => throw not_a_function
              end
          | v => e <- lift (get_prop v "headers") ;; throw not_a_function
          end
      | ErrorHandler this => _fetchErrorHandler this (hd VUndefined args)
      | ThenCb this fn => then_callback (call fn) this fn (hd VUndefined args)
      | MoveDone doneFn =>
          (* () => doneFn() *)
          call_prim doneFn []
      | DoneCb this doneFn =>
          (* () => this._doneFn ? doneFn() : null *)
          o <- gets (spec_of this) ;;
          if truthy (_doneFn o) then call_prim doneFn [] else ret VNull
      | RunExpects this =>
          o <- gets (spec_of this) ;;
          run_expects_loop this (_expects o) ;;;
          ret VUndefined
      | ExpectRunner this expectHandler expectArgs expectPass =>
          expect_runner this expectHandler expectArgs expectPass (hd VUndefined args)
      end
  | _ => call_prim f args
  end.

(** ** Entry points that create the root task *)

(** [fromJSON(json)] *)
Definition fromJSON (this : nat) (json : Val) : M Val :=
  match JSON_stringify H json with
  | None => throw (type_error "Cannot read property 'length' of undefined")
  | Some jsonString =>
      r <- new_response
             {| res_url := "/"; res_status := 200; res_statusText := "OK";
                res_headers := [(lower "Content-Type", "application/json")];
                res_body := jsonString;
                res_size := Z.of_nat (String.length jsonString);
                res_timeout := 0; _body := VUndefined |} ;;
      update_spec this (with_response (VResponse r)) ;;;
      p0 <- new_promise (Fulfilled (VResponse r)) ;;
      p1 <- promise_then p0 (VClosure FromJSON_decode) VUndefined ;;
      p2 <- promise_then p1 (VClosure (FromJSON_store this)) VUndefined ;;
      p3 <- promise_catch p2 (VClosure (ErrorHandler None)) ;;
      update_spec this (with_fetch (Some p3)) ;;;
      ret (VSpec this)
  end.

(** [Object.assign({}, this._setupDefaults.request, params || {})] *)
Definition fetchParams (defaults_request params : Val) : list (string * Val) :=
  Object_assign [] [defaults_request; js_or params (VObj [])].

(** [fetch(url, params)] *)
Definition fetch (this : nat) (url params : Val) : M Val :=
  o <- gets (spec_of this) ;;
  defaults_request <- lift (get_prop (_setupDefaults o) "request") ;;
  let request :=
    {| req_url := url; req_init := fetchParams defaults_request params |} in
  update_spec this (with_request (Some request)) ;;;
  t <- on_spec this (timeout this VUndefined) ;;
  p0 <- node_fetch request t ;;
  p1 <- promise_then p0 (VClosure (Fetch_decode this)) VUndefined ;;
  p2 <- promise_then p1 (VClosure (Fetch_store this)) VUndefined ;;
  p3 <- promise_catch p2 (VClosure (ErrorHandler (Some this))) ;;
  update_spec this (with_fetch (Some p3)) ;;;
  ret (VSpec this).

(** [get(url)] *)
Definition get (this : nat) (url : Val) : M Val := fetch this url VUndefined.

(** [del(url)] *)
Definition del (this : nat) (url : Val) : M Val :=
  fetch this url (VObj [("method", VStr "delete")]).

(** [JSON.stringify(v)] as a value: a string, or [undefined]. *)
Definition stringify (v : Val) : Val :=
  match JSON_stringify H v with Some s => VStr s | None => VUndefined end.

(** [params] after [if (params && _.isObject(params.body))
    params.body = JSON.stringify(params.body)]. *)
Definition encode_body (params : Val) : Val :=
  match params with
  | VObj props =>
      match obj_lookup "body" props with
      | Some b => if isObject b then VObj (obj_set "body" (stringify b) props) else params
      | None => params
      end
  | _ => params
  end.

Definition prop_undefined (v : Val) (k : string) : bool :=
  match get_prop v k with Normal x => is_undefined x | Throw _ => false end.

(** [postParams] before it is merged with [params]: [{ method }], and
    [body] too when [params] has neither [body] nor [headers]. *)
Definition method_defaults (method : string) (params : Val) : list (string * Val) :=
  let params1 := encode_body params in
  if truthy params1 && prop_undefined params1 "body" && prop_undefined params1 "headers"
  then obj_set "body" (stringify params1) [("method", VStr method)]
  else [("method", VStr method)].

(** The object [_requestWithBody] hands to [fetch]:
    [Object.assign(postParams, params || {})]. *)
Definition postParams (method : string) (params : Val) : list (string * Val) :=
  Object_assign (method_defaults method params) [js_or (encode_body params) (VObj [])].

(** [_requestWithBody(method, url, params)] *)
Definition _requestWithBody (this : nat) (method : string) (url params : Val)
  : M Val :=
  fetch this url (VObj (postParams method params)).

(** [patch], [post], [put] *)
Definition patch (this : nat) (url params : Val) : M Val :=
  _requestWithBody this "PATCH" url params.


Definition put (this : nat) (url params : Val) : M Val :=
  _requestWithBody this "PUT" url params.

(** [use(fn)] *)
Definition use (this : nat) (fn : Val) : M Val :=
  call fn [VSpec this] ;;; ret (VSpec this).

(** ** The event loop *)

(** The network answers the request behind [p]: with a response, or with an
    error (a failed connection, a timeout). *)
Definition deliver (p : nat) (answer : Response + Val) : M unit :=
  match answer with
  | inl resp => r <- new_response resp ;; modify (settle p true (VResponse r))
  | inr err => modify (settle p false err)
  end.

Definition run_job (j : Job) (st : State) : State :=
  match j with
  | ReactionJob handler ok argument target =>
      if is_callable handler then
        match call handler [argument] st with
        | (Normal v, st') => resolve target v st'
        | (Throw e, st') => settle target false e st'
        end
      else if ok then resolve target argument st
      else settle target false argument st
  | ResolveThenableJob p thenable =>
      let m :=
        match thenable with
        | VObj props =>
            match obj_lookup "then" props with
            | Some f => call f [VResolveFn p; VRejectFn p]
            | None => ret VUndefined
            end
        | VPromise q => d <- promise_then q (VResolveFn p) (VRejectFn p) ;; ret VUndefined
        | _ => invoke_then thenable (VResolveFn p)
        end in
      match m st with
      | (Normal _, st') => st'
      | (Throw e, st') => settle p false e st'
      end
  end.

(** Run queued microtasks, oldest first, until the queue is empty or the
    fuel is used up. *)
Fixpoint run_jobs (fuel : nat) (st : State) : State :=
  match fuel with
  | O => st
  | S fuel' =>
      match jobs st with
      | [] => st
      | j :: rest => run_jobs fuel' (run_job j (set_jobs rest st))
      end
  end.

End Engine.

(** ** A concrete host

    A small JSON codec (integers, strings without escapes, arrays, objects)
    and a key-by-key deep merge, to run the model on concrete inputs. *)

Module Demo.

Definition quote (s : string) : string := String.String "034" (s +:+ String.String "034" EmptyString).

Fixpoint join (sep : string) (parts : list string) : string :=
  match parts with
  | [] => EmptyString
  | [x] => x
  | x :: rest => x +:+ sep +:+ join sep rest
  end.

Fixpoint stringify (v : Val) : option string :=
  match v with
  | VNull => Some "null"
  | VBool true => Some "true"
  | VBool false => Some "false"
  | VNum n => Some (pretty n)
  | VStr s => Some (quote s)
  | VArr xs =>
      Some ("[" +:+ join ","
              ((fix elems (l : list Val) : list string :=
                  match l with
                  | [] => []
                  | x :: rest =>
                      match stringify x with
                      | Some s => s
                      | None => "null"
                      end :: elems rest
                  end) xs) +:+ "]")
  | VObj props =>
      Some ("{" +:+ join ","
              ((fix members (l : list (string * Val)) : list string :=
                  match l with
                  | [] => []
                  | (k, x) :: rest =>
                      match stringify x with
                      | Some s => (quote k +:+ ":" +:+ s) :: members rest
                      | None => members rest
                      end
                  end) props) +:+ "}")
  | VError _ _ | VPromise _ | VSpec _ | VResponse _ => Some "{}"
  | VUndefined | VFun _ | VResolveFn _ | VRejectFn _ | VClosure _ => None
  end.

Definition is_digit (c : ascii) : bool :=
  let n := nat_of_ascii c in (Nat.leb 48 n && Nat.leb n 57)%bool.

Fixpoint take_digits (cs : list ascii) (acc : Z) : Z * list ascii :=
  match cs with
  | c :: rest =>
      if is_digit c
      then take_digits rest (10 * acc + Z.of_nat (nat_of_ascii c - 48))
      else (acc, cs)
  | [] => (acc, [])
  end.

Fixpoint take_string (cs : list ascii) (acc : string) : option (string * list ascii) :=
  match cs with
  | [] => None
  | c :: rest =>
      if Ascii.eqb c "034" then Some (acc, rest)
      else take_string rest (acc +:+ String.String c EmptyString)
  end.

Definition expect_prefix (lit : string) (cs : list ascii) : option (list ascii) :=
  let l := list_ascii_of_string lit in
  if String.eqb (string_of_list_ascii (firstn (length l) cs)) lit
  then Some (skipn (length l) cs) else None.

Fixpoint parse_value (fuel : nat) (cs : list ascii) : option (Val * list ascii) :=
  match fuel with
  | O => None
  | S fuel' =>
      let parse_elems :=
        fix elems (n : nat) (cs : list ascii) (acc : list Val)
          : option (Val * list ascii) :=
          match n with
          | O => None
          | S n' =>
              match parse_value fuel' cs with
              | Some (v, c :: rest) =>
                  if Ascii.eqb c "," then elems n' rest (acc ++ [v])
                  else if Ascii.eqb c "]" then Some (VArr (acc ++ [v]), rest)
                  else None
              | _ => None
              end
          end in
      let parse_members :=
        fix members (n : nat) (cs : list ascii) (acc : list (string * Val))
          : option (Val * list ascii) :=
          match n with
          | O => None
          | S n' =>
              match cs with
              | q :: cs1 =>
                  if Ascii.eqb q "034" then
                    match take_string cs1 EmptyString with
                    | Some (k, colon :: cs2) =>
                        if Ascii.eqb colon ":" then
                          match parse_value fuel' cs2 with
                          | Some (v, c :: rest) =>
                              if Ascii.eqb c "," then members n' rest (acc ++ [(k, v)])
                              else if Ascii.eqb c "}" then Some (VObj (acc ++ [(k, v)]), rest)
                              else None
                          | _ => None
                          end
                        else None
                    | _ => None
                    end
                  else None
              | [] => None
              end
          end in
      match cs with
      | [] => None
      | c :: rest =>
          if Ascii.eqb c "n" then
            match expect_prefix "ull" rest with Some r => Some (VNull, r) | None => None end
          else if Ascii.eqb c "t" then
            match expect_prefix "rue" rest with Some r => Some (VBool true, r) | None => None end
          else if Ascii.eqb c "f" then
            match expect_prefix "alse" rest with Some r => Some (VBool false, r) | None => None end
          else if Ascii.eqb c "034" then
            match take_string rest EmptyString with
            | Some (s, r) => Some (VStr s, r)
            | None => None
            end
          else if Ascii.eqb c "-" then
            match rest with
            | d :: _ =>
                if is_digit d then
                  let '(n, r) := take_digits rest 0 in Some (VNum (- n), r)
                else None
            | [] => None
            end
          else if is_digit c then
            let '(n, r) := take_digits cs 0 in Some (VNum n, r)
          else if Ascii.eqb c "[" then
            match rest with
            | c' :: rest' =>
                if Ascii.eqb c' "]" then Some (VArr [], rest')
                else parse_elems (length rest) rest []
            | [] => None
            end
          else if Ascii.eqb c "{" then
            match rest with
            | c' :: rest' =>
                if Ascii.eqb c' "}" then Some (VObj [], rest')
                else parse_members (length rest) rest []
            | [] => None
            end
          else None
      end
  end.

Definition parse (s : string) : option Val :=
  match parse_value (S (String.length s)) (list_ascii_of_string s) with
  | Some (v, []) => Some v
  | _ => None
  end.

(** Key-by-key deep merge of [src] into [dst]. *)
Fixpoint deep_merge (dst src : Val) {struct src} : Val :=
  match src with
  | VObj sprops =>
      let dprops := match dst with VObj d => d | _ => [] end in
      VObj
        ((fix go (l : list (string * Val)) (acc : list (string * Val))
            : list (string * Val) :=
            match l with
            | [] => acc
            | (k, sv) :: rest =>
                match sv with
                | VObj _ =>
                    go rest
                      (obj_set k
                         (deep_merge
                            (match obj_lookup k acc with Some d => d | None => VObj [] end)
                            sv) acc)
                | VUndefined => go rest (if has_own k acc then acc else obj_set k sv acc)
                | _ => go rest (obj_set k sv acc)
                end
            end) sprops dprops)
  | _ => dst
  end.

(** Caller functions of the demo host: [0] returns nothing, [1] returns its
    argument, [2] throws, [3] checks that the response has status 200,
    [4] checks for status 404, [10 + p] (below 20) returns the promise [p]
    and [20 + s] returns the spec [s]. *)
Definition demo_fn (id : nat) (st : State) (args : list Val) : Completion Val :=
  match id with
  | 0%nat => Normal VUndefined
  | 1%nat => Normal (hd VUndefined args)
  | 2%nat => Throw (VError "Error" "boom")
  | 3%nat | 4%nat =>
      match hd VUndefined args with
      | VResponse r =>
          match responses st !! r with
          | Some resp =>
              if res_status resp =? (if Nat.eqb id 3 then 200 else 404) then Normal VUndefined
              else Throw (VError "AssertionError" "unexpected status")
          | None => Throw (VError "Error" "no response")
          end
      | _ => Throw (VError "Error" "no response")
      end
  | _ => if Nat.ltb id 20 then Normal (VPromise (id - 10)) else Normal (VSpec (id - 20))
  end.

Definition host : Host :=
  {| fn_body := demo_fn;
     fail_defined := true;
     expect_defined := true;
     JSON_stringify := stringify;
     JSON_parse := parse;
     merge := deep_merge |}.

End Demo.

(** ** Vocabulary of the statements *)

(** The defaults [setup(opts, replace)] leaves on the spec. *)
Definition resulting_defaults (H : Host) (opts replace : Val) (o : FrisbySpec) : Val :=
  if truthy replace then opts else merge H (_setupDefaults o) opts.

(** A defaults value without a usable [request]: it is itself [undefined] or
    [null], or its [request] is. *)
Definition lacks_request (d : Val) : bool :=
  match get_prop d "request" with
  | Normal request => is_nullish request
  | Throw _ => true
  end.

(** The value read for [d.request.timeout], when both reads succeed. *)
Definition shared_timeout (d : Val) : Val :=
  match get_prop d "request" with
  | Normal request =>
      match get_prop request "timeout" with Normal t => t | Throw _ => VUndefined end
  | Throw _ => VUndefined
  end.

(** The timeout in effect: the shared default when it is set, else the
    timeout of the spec. *)
Definition effective_timeout (o : FrisbySpec) : Val :=
  js_or (shared_timeout (_setupDefaults o)) (_timeout o).

Definition is_TypeError (c : Completion Val) : bool :=
  match c with
  | Throw (VError name _) => String.eqb name "TypeError"
  | _ => false
  end.



(** Distinct keys, as the properties of an object are. *)
Definition distinct_keys (props : list (string * Val)) : Prop :=
  NoDup (map fst props).

(** ** Programs run in the statements *)

Module Scenario.

Local Open Scope js_scope.

(** A host whose transport cannot decode the payload it is given. *)
Definition undecodable_host : Host :=
  {| fn_body := Demo.demo_fn;
     fail_defined := true;
     expect_defined := true;
     JSON_stringify := Demo.stringify;
     JSON_parse := fun _ => None;
     merge := Demo.deep_merge |}.




End Scenario.

(** [st'] differs from [st] in the promise heap, which grew by [n] cells,
    and the job queue at most. *)
Definition promises_only (n : nat) (st st' : State) : Prop :=
  specs st' = specs st /\
  responses st' = responses st /\
  trace st' = trace st /\
  expectHandlers st' = expectHandlers st /\
  length (promises st') = (n + length (promises st))%nat.

(** The requests that went out to the network. *)
Definition fetches (tr : list Event) : list Event :=
  List.filter (fun ev => match ev with EvFetch _ _ _ => true | _ => false end) tr.

(** The payload [fetch] stores for a response: the decoded JSON when the
    headers declare JSON, the text otherwise. *)
Definition decoded_payload (H : Host) (resp : Response) : option Val :=
  if declares_json (res_headers resp) then JSON_parse H (res_body resp)
  else Some (VStr (res_body resp)).

(** [last] is not an asynchronous value: the test of the [then] callback on
    [_lastResult] fails. *)
Definition async_result (last : Val) : bool :=
  truthy last && (instanceof_FrisbySpec last || instanceof_Promise last).

(** [m] sends nothing to the network. *)
Definition keeps_fetches {A} (m : M A) : Prop :=
  forall st, fetches (trace (snd (m st))) = fetches (trace st).

(** [m] leaves the observation [obs] of the state as it found it. *)
Definition keeps {A X} (obs : State -> X) (m : M A) : Prop :=
  forall st, obs (snd (m st)) = obs st.

Module Fixture.

(** A response of the transport: status 200, JSON content type, an array
    as payload. *)
Definition users_response : Response :=
  {| res_url := "/users"; res_status := 200; res_statusText := "OK";
     res_headers := [("content-type", "application/json; charset=utf-8")];
     res_body := "[1,2]"; res_size := 0; res_timeout := 0; _body := VUndefined |}.

End Fixture.

(** The value a promise was fulfilled with. *)
Definition fulfilled_value (st : State) (p : nat) : option Val :=
  match promises st !! p with
  | Some {| pstate := Fulfilled v |} => Some v
  | _ => None
  end.



Module Programs.

Local Open Scope js_scope.


(** [spec.fromJSON(7).then(f0).then(f1)]: [f0] returns nothing. *)
Definition then_returning_nothing : M Val :=
  s <- new_FrisbySpec ;;
  fromJSON Demo.host s (VNum 7) ;;;
  then_ s (VFun 0) ;;;
  then_ s (VFun 1).

(** A state with one promise, fulfilled with 1, and one fresh spec. *)
Definition one_promise_one_spec : State :=
  {| promises := [{| pstate := Fulfilled (VNum 1); reactions := [] |}];
     specs := [constructor]; responses := []; jobs := []; trace := [];
     expectHandlers := [] |}.


(** [spec.fromJSON(7).then(f21).then(f22).then(f1)] with two more specs,
    started on 8 and 9: [f21] returns the first of them, [f22] the second. *)
Definition two_nested_specs : M Val :=
  s <- new_FrisbySpec ;;
  s2 <- new_FrisbySpec ;;
  s3 <- new_FrisbySpec ;;
  fromJSON Demo.host s (VNum 7) ;;;
  fromJSON Demo.host s2 (VNum 8) ;;;
  fromJSON Demo.host s3 (VNum 9) ;;;
  then_ s (VFun 21) ;;;
  then_ s (VFun 22) ;;;
  then_ s (VFun 1).

(** [spec.fetch('/users').expect('status', 404)], or [expectNot] in its
    place, where the registry maps [status] to [f4] and the network answers
    with status 200. *)
Definition status_mismatch (mustPass : bool) : M unit :=
  s <- new_FrisbySpec ;;
  addExpectHandler (VStr "status") (VFun 4) ;;;
  fetch s (VStr "/users") VUndefined ;;;
  registry <- gets expectHandlers ;;
  on_spec s ((if mustPass then expect else expectNot) registry s (VStr "status") [VNum 404]) ;;;
  deliver 0 (inl Fixture.users_response).

(** [spec.setup({ request: { timeout: 10 } }).fetch('/slow')], answered by
    the timeout error of the transport. *)
Definition slow_fetch : M unit :=
  s <- new_FrisbySpec ;;
  on_spec s (setup Demo.host s (VObj [("request", VObj [("timeout", VNum 10)])]) VUndefined) ;;;
  fetch s (VStr "/slow") VUndefined ;;;
  deliver 0 (inr (VError "FetchError" "network timeout")).

End Programs.

(** ** Vocabulary of the further properties *)

(** What reached the test runner through the failure channel. *)
Definition reports (tr : list Event) : list Event :=
  List.filter
    (fun ev => match ev with EvFail _ | EvExpectToBeNull _ => true | _ => false end) tr.

(** The calls of functions a caller supplied. *)
Definition calls (tr : list Event) : list Event :=
  List.filter (fun ev => match ev with EvCall _ _ => true | _ => false end) tr.

(** An element of [_expects] as [expectNot] stores it. *)
Definition must_fail (e : Val) : bool :=
  match e with
  | VClosure (ExpectRunner _ _ _ expectPass) => negb expectPass
  | _ => false
  end.

(** An element of [_expects] as [expect] or [expectNot] of the spec [this]
    stores it. *)
Definition registered_by (this : nat) (e : Val) : bool :=
  match e with
  | VClosure (ExpectRunner s _ _ _) => Nat.eqb s this
  | _ => false
  end.

(** The call an assertion makes when it runs on [response]. *)
Definition handler_call (response : Val) (e : Val) : list Event :=
  match e with
  | VClosure (ExpectRunner _ (VFun f) expectArgs _) => [EvCall f (response :: expectArgs)]
  | _ => []
  end.

(** [needle] occurs in [hay]. *)
Definition contains (hay needle : string) : bool :=
  match String.index 0 needle hay with Some _ => true | None => false end.

(** * Properties *)

Local Open Scope js_scope.

(** ** Configuration: [setup] and [timeout] *)

(** C9: [setup] throws a TypeError exactly when the resulting defaults lack
    a [request]; otherwise it returns the spec and resets the timeout of the
    spec to the shared default timeout, or to the module constant when that
    is missing or falsy, whatever the timeout was before. *)
Theorem setup_requires_request (H : Host) (this : nat) (opts replace : Val)
    (o : FrisbySpec) :
  let d := resulting_defaults H opts replace o in
  _setupDefaults (snd (setup H this opts replace o)) = d /\
  (if lacks_request d
   then is_TypeError (fst (setup H this opts replace o)) = true
   else setup H this opts replace o =
          (Normal (VSpec this),
           with_timeout (js_or (shared_timeout d) (VNum TIMEOUT_DEFAULT))
             (with_setupDefaults d o))) /\
  (lacks_request d = false ->
   _timeout (snd (setup H this opts replace o)) =
     if truthy (shared_timeout d) then shared_timeout d else VNum TIMEOUT_DEFAULT).
Proof.
  unfold resulting_defaults, lacks_request, shared_timeout, setup; simpl.
  destruct (if truthy replace then opts else merge H (_setupDefaults o) opts)
    as [ | | | | | | props | name message | | | | | | | ]; simpl.
  7: destruct (obj_lookup "request" props) as [[]|]; simpl.
  all: repeat split; try reflexivity; try discriminate.
Qed.

Lemma setup_requires_request_witness :
  let opts := VObj [("request", VObj [("timeout", VNum 10)])] in
  lacks_request (resulting_defaults Demo.host opts VUndefined constructor) = false /\
  _timeout (snd (setup Demo.host 0 opts VUndefined constructor)) = VNum 10.
Proof.
  intros opts.
  destruct (setup_requires_request Demo.host 0 opts VUndefined constructor)
    as (_ & _ & Hreset).
  split; [reflexivity | ].
  rewrite Hreset; reflexivity.
Defined.

(** Without an argument, [timeout] reads the timeout in effect. *)
Lemma timeout_getter (this : nat) (o : FrisbySpec) :
  is_nullish (_setupDefaults o) = false ->
  timeout this VUndefined o = (Normal (effective_timeout o), o).
Proof.
  unfold timeout, effective_timeout, shared_timeout, js_or; simpl; intros Hobj.
  destruct (get_prop (_setupDefaults o) "request") as [request | e] eqn:Hreq; simpl.
  - destruct request; simpl; try reflexivity;
      repeat match goal with
             | |- context [truthy ?x] => destruct (truthy x) eqn:?; simpl
             | |- context [if negb ?b then _ else _] => destruct b; simpl
             | |- context [if ?b then _ else _] => destruct b eqn:?; simpl
             end; try reflexivity; try discriminate.
  - destruct (_setupDefaults o); simpl in *; discriminate.
Qed.

(** C10: a falsy argument makes [timeout] the getter: it answers as the call
    without an argument does, leaves the spec as it is and, on a spec whose
    shared defaults are an object, returns the timeout in effect.  Only a
    truthy argument is stored and returns the spec, so [timeout(0)] stores
    nothing. *)
Theorem timeout_falsy_argument_is_getter (this : nat) (t : Val) (o : FrisbySpec) :
  timeout this t o =
    (if truthy t then (Normal (VSpec this), with_timeout t o)
     else timeout this VUndefined o) /\
  snd (timeout this VUndefined o) = o /\
  (is_nullish (_setupDefaults o) = false ->
   fst (timeout this VUndefined o) = Normal (effective_timeout o)) /\
  snd (timeout this (VNum 0) o) = o /\
  Forall (fun falsy => truthy falsy = false)
    [VNum 0; VNull; VBool false; VUndefined; VStr EmptyString].
Proof.
  assert (Hget : snd (timeout this VUndefined o) = o).
  { unfold timeout; simpl.
    destruct (get_prop (_setupDefaults o) "request") as [request | e]; simpl; auto.
    destruct (truthy request); simpl; auto.
    destruct (get_prop request "timeout") as [rt | e]; simpl; auto.
    destruct (truthy rt); reflexivity. }
  split; [ | split; [exact Hget | split; [ | split]]].
  - unfold timeout; destruct (truthy t); reflexivity.
  - intros Hobj. rewrite (timeout_getter this o Hobj). reflexivity.
  - unfold timeout at 1; simpl. exact Hget.
  - repeat constructor.
Qed.

Lemma timeout_falsy_argument_is_getter_witness :
  let o := with_timeout (VNum 250) constructor in
  is_nullish (_setupDefaults o) = false /\
  fst (timeout 0 (VNum 0) o) = Normal (VNum 250).
Proof.
  intros o.
  destruct (timeout_falsy_argument_is_getter 0 (VNum 0) o)
    as (Hcall & _ & Hvalue & _).
  split; [reflexivity | ].
  rewrite Hcall. exact (Hvalue eq_refl).
Defined.

(** ** Registering assertions *)




Lemma bind_unfold_throw {A B} (m : M A) (k : A -> M B) (st st1 : State) (e : Val) :
  m st = (Throw e, st1) -> bind m k st = (Throw e, st1).
Proof. unfold bind. intros ->. reflexivity. Qed.

(** ** Running assertions *)



(** An assertion on status 404 against a response with status 200: as
    [expect] it reaches the failure channel once, as [expectNot] not at
    all. *)
Example status_mismatch_reported_once :
  let request := {| req_url := VStr "/users"; req_init := [] |} in
  let failure := VError "AssertionError" "unexpected status" in
  trace (run_jobs Demo.host 30 (snd (Programs.status_mismatch true initial_state))) =
    [EvFetch request (VNum 5000) 0; EvCall 4 [VResponse 0; VNum 404]; EvFail failure] /\
  trace (run_jobs Demo.host 30 (snd (Programs.status_mismatch false initial_state))) =
    [EvFetch request (VNum 5000) 0; EvCall 4 [VResponse 0; VNum 404]].
Proof. split; reflexivity. Qed.

(** ** The failure channel *)

(** The policy of [_fetchErrorHandler] when it runs on a spec: the custom
    handler if one is set, else [fail], else [expect(err.stack).toBeNull()],
    else the error is thrown again. *)
Lemma _fetchErrorHandler_policy (H : Host) (s : nat) (err : Val) (st : State) :
  _fetchErrorHandler H (Some s) err st =
    if truthy (_expectError (spec_of s st))
    then call_prim H (_expectError (spec_of s st)) [err] st
    else if fail_defined H
    then (Normal VUndefined, set_trace (trace st ++ [EvFail err]) st)
    else if expect_defined H
    then match get_prop err "stack" with
         | Normal stack =>
             (Normal VUndefined, set_trace (trace st ++ [EvExpectToBeNull stack]) st)
         | Throw e => (Throw e, st)
         end
    else (Throw err, st).
Proof.
  unfold _fetchErrorHandler, bind, gets; simpl.
  destruct (truthy (_expectError (spec_of s st))); [reflexivity | ].
  destruct (fail_defined H); [reflexivity | ].
  destruct (expect_defined H); [ | reflexivity].
  unfold lift. destruct (get_prop err "stack"); reflexivity.
Qed.

(** Invoked without a receiver, the handler fails on its first read and
    consults nothing. *)
Lemma _fetchErrorHandler_unbound (H : Host) (err : Val) (st : State) :
  _fetchErrorHandler H None err st =
    (Throw (type_error "Cannot read property '_expectError' of undefined"), st).
Proof. reflexivity. Qed.


(** ** Building the request *)

Lemma obj_lookup_obj_set (k k' : string) (v : Val) (props : list (string * Val)) :
  obj_lookup k (obj_set k' v props) =
    if String.eqb k k' then Some v else obj_lookup k props.
Proof.
  induction props as [ | [k0 v0] props IH]; simpl.
  - destruct (String.eqb k k'); reflexivity.
  - destruct (String.eqb k' k0) eqn:Hk'; simpl.
    + apply String.eqb_eq in Hk'; subst k0.
      destruct (String.eqb k k'); reflexivity.
    + destruct (String.eqb k k0) eqn:Hk.
      * apply String.eqb_eq in Hk; subst k0.
        rewrite String.eqb_sym, Hk'. reflexivity.
      * exact IH.
Qed.

Lemma obj_lookup_None_keys (k : string) (props : list (string * Val)) :
  obj_lookup k props = None <-> k ∉ map fst props.
Proof.
  induction props as [ | [k0 v0] props IH]; simpl.
  - split; [intros _; apply not_elem_of_nil | reflexivity].
  - rewrite not_elem_of_cons.
    destruct (String.eqb k k0) eqn:Hk.
    + apply String.eqb_eq in Hk; subst. split; [discriminate | tauto].
    + apply String.eqb_neq in Hk. rewrite IH. tauto.
Qed.

(** After [Object.assign(target, src)], a key reads as in [src] when [src]
    has it, else as in [target]. *)
Lemma obj_lookup_assign_props (k : string) (src target : list (string * Val)) :
  distinct_keys src ->
  obj_lookup k (assign_props target src) =
    match obj_lookup k src with
    | Some v => Some v
    | None => obj_lookup k target
    end.
Proof.
  unfold assign_props, distinct_keys.
  revert target; induction src as [ | [k0 v0] src IH]; intros target Hnd; simpl.
  - reflexivity.
  - simpl in Hnd. apply NoDup_cons in Hnd as [Hnotin Hnd'].
    rewrite IH by assumption.
    rewrite obj_lookup_obj_set.
    destruct (String.eqb k k0) eqn:Hk.
    + apply String.eqb_eq in Hk; subst k0.
      apply obj_lookup_None_keys in Hnotin. rewrite Hnotin. reflexivity.
    + reflexivity.
Qed.

Lemma keys_obj_set (k : string) (v : Val) (props : list (string * Val)) :
  map fst (obj_set k v props) =
    if has_own k props then map fst props else map fst props ++ [k].
Proof.
  unfold has_own.
  induction props as [ | [k0 v0] props IH]; simpl.
  - reflexivity.
  - destruct (String.eqb k k0) eqn:Hk; simpl.
    + apply String.eqb_eq in Hk; subst; reflexivity.
    + rewrite IH. destruct (obj_lookup k props); reflexivity.
Qed.

Lemma distinct_keys_obj_set (k : string) (v : Val) (props : list (string * Val)) :
  distinct_keys props -> distinct_keys (obj_set k v props).
Proof.
  unfold distinct_keys. intros Hnd. rewrite keys_obj_set.
  unfold has_own. destruct (obj_lookup k props) eqn:Hl; [assumption | ].
  apply obj_lookup_None_keys in Hl.
  apply NoDup_app. split; [assumption | split; [ | apply NoDup_singleton]].
  intros x Hx Hk. apply list_elem_of_singleton in Hk; subst. contradiction.
Qed.

Lemma distinct_keys_assign_props (src target : list (string * Val)) :
  distinct_keys target -> distinct_keys (assign_props target src).
Proof.
  unfold assign_props. revert target.
  induction src as [ | [k0 v0] src IH]; intros target Hnd; simpl; auto.
  apply IH, distinct_keys_obj_set, Hnd.
Qed.

Lemma own_props_or_empty (params : Val) :
  own_props (js_or params (VObj [])) = own_props params.
Proof.
  unfold js_or. destruct params; simpl; try reflexivity.
  all: match goal with |- context [if ?b then _ else _] => destruct b end; reflexivity.
Qed.

(** Precedence inside [fetch]: per-call parameters over shared defaults. *)
Lemma fetchParams_lookup (defaults_request params : Val) (k : string) :
  distinct_keys (own_props defaults_request) ->
  distinct_keys (own_props params) ->
  obj_lookup k (fetchParams defaults_request params) =
    match obj_lookup k (own_props params) with
    | Some v => Some v
    | None => obj_lookup k (own_props defaults_request)
    end.
Proof.
  intros Hd Hp. unfold fetchParams, Object_assign; simpl.
  rewrite own_props_or_empty.
  rewrite !obj_lookup_assign_props by assumption.
  destruct (obj_lookup k (own_props params)); [reflexivity | ].
  destruct (obj_lookup k (own_props defaults_request)); reflexivity.
Qed.

(** Precedence inside [_requestWithBody]: per-call parameters over the
    defaults implied by the method. *)
Lemma postParams_lookup (H : Host) (method : string) (params : Val) (k : string) :
  distinct_keys (own_props (encode_body H params)) ->
  obj_lookup k (postParams H method params) =
    match obj_lookup k (own_props (encode_body H params)) with
    | Some v => Some v
    | None => obj_lookup k (method_defaults H method params)
    end.
Proof.
  intros Hp. unfold postParams, Object_assign; simpl.
  rewrite own_props_or_empty.
  apply obj_lookup_assign_props; assumption.
Qed.

Lemma distinct_keys_method_defaults (H : Host) (method : string) (params : Val) :
  distinct_keys (method_defaults H method params).
Proof.
  unfold method_defaults.
  match goal with |- context [if ?b then _ else _] => destruct b end.
  - apply distinct_keys_obj_set. apply NoDup_singleton.
  - apply NoDup_singleton.
Qed.

Lemma distinct_keys_postParams (H : Host) (method : string) (params : Val) :
  distinct_keys (postParams H method params).
Proof.
  unfold postParams, Object_assign; simpl.
  apply distinct_keys_assign_props, distinct_keys_method_defaults.
Qed.

Lemma distinct_keys_encode_body (H : Host) (params : Val) :
  distinct_keys (own_props params) -> distinct_keys (own_props (encode_body H params)).
Proof.
  destruct params; simpl; auto.
  destruct (obj_lookup "body" props) as [b | ]; simpl; auto.
  destruct (isObject b); simpl; auto.
  apply distinct_keys_obj_set.
Qed.

(** ** Frame properties of the promise operations *)

Ltac frame_cases :=
  repeat match goal with
         | |- context [match ?x with _ => _ end] => destruct x; simpl
         end; try reflexivity.

Lemma specs_settle (p : nat) (ok : bool) (v : Val) (st : State) :
  specs (settle p ok v st) = specs st.
Proof. unfold settle. frame_cases. Qed.

Lemma responses_settle (p : nat) (ok : bool) (v : Val) (st : State) :
  responses (settle p ok v st) = responses st.
Proof. unfold settle. frame_cases. Qed.

Lemma trace_settle (p : nat) (ok : bool) (v : Val) (st : State) :
  trace (settle p ok v st) = trace st.
Proof. unfold settle. frame_cases. Qed.

Lemma specs_resolve (p : nat) (x : Val) (st : State) :
  specs (resolve p x st) = specs st.
Proof.
  unfold resolve, enqueue.
  destruct x; simpl; rewrite ?specs_settle; try reflexivity.
  all: frame_cases; apply specs_settle.
Qed.

Lemma trace_resolve (p : nat) (x : Val) (st : State) :
  trace (resolve p x st) = trace st.
Proof.
  unfold resolve, enqueue.
  destruct x; simpl; rewrite ?trace_settle; try reflexivity.
  all: frame_cases; apply trace_settle.
Qed.

Lemma specs_register (p d : nat) (onF onR : Val) (st : State) :
  specs (register p d onF onR st) = specs st.
Proof. unfold register, add_reaction, enqueue. frame_cases. Qed.

Lemma responses_register (p d : nat) (onF onR : Val) (st : State) :
  responses (register p d onF onR st) = responses st.
Proof. unfold register, add_reaction, enqueue. frame_cases. Qed.

Lemma trace_register (p d : nat) (onF onR : Val) (st : State) :
  trace (register p d onF onR st) = trace st.
Proof. unfold register, add_reaction, enqueue. frame_cases. Qed.

Lemma length_promises_register (p d : nat) (onF onR : Val) (st : State) :
  length (promises (register p d onF onR st)) = length (promises st).
Proof.
  unfold register, add_reaction, enqueue. frame_cases.
  apply length_alter.
Qed.

(** [promise_then] always returns: the derived promise is the next free
    cell. *)
Lemma promise_then_eq (p : nat) (onF onR : Val) (st : State) :
  promise_then p onF onR st =
    (Normal (length (promises st)),
     register p (length (promises st)) onF onR
       (set_promises (promises st ++ [{| pstate := Pending; reactions := [] |}]) st)).
Proof. reflexivity. Qed.

Lemma spec_of_lookup (this : nat) (st : State) (o : FrisbySpec) :
  specs st !! this = Some o -> spec_of this st = o.
Proof. unfold spec_of. intros ->. reflexivity. Qed.

(** ** Equations of the monad, one per primitive *)

Lemma bind_gets {A B} (f : State -> A) (k : A -> M B) (st : State) :
  bind (gets f) k st = k (f st) st.
Proof. reflexivity. Qed.

Lemma bind_ret {A B} (a : A) (k : A -> M B) (st : State) :
  bind (ret a) k st = k a st.
Proof. reflexivity. Qed.

Lemma bind_modify {B} (f : State -> State) (k : unit -> M B) (st : State) :
  bind (modify f) k st = k tt (f st).
Proof. reflexivity. Qed.

Lemma bind_lift_normal {A B} (a : A) (k : A -> M B) (st : State) :
  bind (lift (Normal a)) k st = k a st.
Proof. reflexivity. Qed.

Lemma bind_emit {B} (ev : Event) (k : unit -> M B) (st : State) :
  bind (emit ev) k st = k tt (set_trace (trace st ++ [ev]) st).
Proof. reflexivity. Qed.

Lemma bind_update_spec {B} (this : nat) (f : FrisbySpec -> FrisbySpec)
    (k : unit -> M B) (st : State) :
  bind (update_spec this f) k st = k tt (set_specs (alter f this (specs st)) st).
Proof. reflexivity. Qed.

Lemma bind_new_promise {B} (ps : PromiseState) (k : nat -> M B) (st : State) :
  bind (new_promise ps) k st =
    k (length (promises st))
      (set_promises (promises st ++ [{| pstate := ps; reactions := [] |}]) st).
Proof. reflexivity. Qed.

Lemma bind_assoc {A B C} (m : M A) (f : A -> M B) (g : B -> M C) (st : State) :
  bind (bind m f) g st = bind m (fun x => bind (f x) g) st.
Proof. unfold bind. destruct (m st) as [[a | e] st1]; reflexivity. Qed.

Lemma bind_eq {A B} (m : M A) (k : A -> M B) (st st1 : State) (a : A) :
  m st = (Normal a, st1) -> bind m k st = k a st1.
Proof. unfold bind. intros ->. reflexivity. Qed.

Lemma set_specs_same (st : State) : set_specs (specs st) st = st.
Proof. destruct st; reflexivity. Qed.

(** A field-level method that leaves the object as it is leaves the state
    as it is. *)
Lemma on_spec_unchanged {A} (this : nat) (m : SpecM A) (st : State)
    (o : FrisbySpec) (c : Completion A) :
  specs st !! this = Some o -> m o = (c, o) -> on_spec this m st = (c, st).
Proof.
  intros Hthis Hm. unfold on_spec.
  rewrite (spec_of_lookup _ _ _ Hthis), Hm. simpl.
  rewrite list_insert_id by assumption.
  rewrite set_specs_same. reflexivity.
Qed.

Ltac mstep :=
  first [ rewrite bind_gets | rewrite bind_ret | rewrite bind_modify
        | rewrite bind_lift_normal | rewrite bind_emit | rewrite bind_update_spec
        | rewrite bind_new_promise ];
  cbv beta.

Lemma expectHandlers_register (p d : nat) (onF onR : Val) (st : State) :
  expectHandlers (register p d onF onR st) = expectHandlers st.
Proof. unfold register, add_reaction, enqueue. frame_cases. Qed.

Lemma promise_then_frame (p : nat) (onF onR : Val) (st : State) :
  exists st',
    promise_then p onF onR st = (Normal (length (promises st)), st') /\
    promises_only 1 st st'.
Proof.
  eexists. split; [apply promise_then_eq | ].
  unfold promises_only.
  rewrite specs_register, responses_register, trace_register,
    expectHandlers_register, length_promises_register; simpl.
  rewrite length_app; simpl. repeat split. lia.
Qed.

Ltac promise_step st' E F :=
  match goal with
  | |- context [bind (promise_then ?p ?f ?g) ?k ?s] =>
      destruct (promise_then_frame p f g s) as (st' & E & F);
      rewrite (bind_eq _ k s st' _ E); cbv beta
  end.

(** What [fetch] leaves on the spec and sends to the transport. *)
Lemma fetch_request (this : nat) (url params : Val) (st : State)
    (o : FrisbySpec) (defaults_request : Val) :
  specs st !! this = Some o ->
  get_prop (_setupDefaults o) "request" = Normal defaults_request ->
  let request := {| req_url := url; req_init := fetchParams defaults_request params |} in
  exists st',
    fetch this url params st = (Normal (VSpec this), st') /\
    spec_of this st' =
      with_fetch (Some (length (promises st) + 3)%nat) (with_request (Some request) o) /\
    trace st' =
      trace st ++ [EvFetch request (effective_timeout o) (length (promises st))].
Proof.
  intros Hthis Hreq request.
  assert (Hobj : is_nullish (_setupDefaults o) = false)
    by (destruct (_setupDefaults o); simpl in *; congruence).
  unfold fetch.
  mstep. rewrite (spec_of_lookup _ _ _ Hthis), Hreq. mstep. mstep.
  erewrite bind_eq; cycle 1.
  { eapply on_spec_unchanged.
    - simpl. rewrite list_lookup_alter_eq, Hthis. reflexivity.
    - apply (timeout_getter this (with_request (Some request) o)). exact Hobj. }
  unfold node_fetch. rewrite bind_assoc. mstep. rewrite bind_assoc. mstep. mstep.
  cbn [promises set_specs set_promises set_trace trace].
  unfold promise_catch.
  promise_step st1 E1 F1. promise_step st2 E2 F2. promise_step st3 E3 F3.
  destruct F1 as (Hs1 & _ & Ht1 & _ & Hl1), F2 as (Hs2 & _ & Ht2 & _ & Hl2),
    F3 as (Hs3 & _ & Ht3 & _ & Hl3).
  rewrite bind_update_spec.
  eexists. split; [reflexivity | split].
  - unfold spec_of; simpl. rewrite Hs3, Hs2, Hs1; simpl.
    rewrite !list_lookup_alter_eq, Hthis; simpl.
    rewrite Hl2, Hl1; simpl. rewrite length_app; simpl.
    do 2 f_equal. lia.
  - simpl. rewrite Ht3, Ht2, Ht1. reflexivity.
Qed.

Lemma encode_body_other_key (H : Host) (params : Val) (k : string) :
  String.eqb k "body" = false ->
  obj_lookup k (own_props (encode_body H params)) = obj_lookup k (own_props params).
Proof.
  intros Hk. destruct params; simpl; try reflexivity.
  destruct (obj_lookup "body" props) as [b | ]; simpl; [ | reflexivity].
  destruct (isObject b); simpl; [ | reflexivity].
  rewrite obj_lookup_obj_set, Hk. reflexivity.
Qed.





(** ** Jobs never reach the network *)


Lemma keeps_fetches_bind {A B} (m : M A) (k : A -> M B) :
  keeps_fetches m -> (forall a, keeps_fetches (k a)) -> keeps_fetches (bind m k).
Proof.
  intros Hm Hk st. unfold bind.
  specialize (Hm st). destruct (m st) as [[a | e] st1]; simpl in *.
  - rewrite Hk. exact Hm.
  - exact Hm.
Qed.

Lemma keeps_fetches_ret {A} (a : A) : keeps_fetches (ret a).
Proof. intros st; reflexivity. Qed.

Lemma keeps_fetches_throw {A} (e : Val) : keeps_fetches (@throw A e).
Proof. intros st; reflexivity. Qed.

Lemma keeps_fetches_lift {A} (c : Completion A) : keeps_fetches (lift c).
Proof. intros st; reflexivity. Qed.

Lemma keeps_fetches_gets {A} (f : State -> A) : keeps_fetches (gets f).
Proof. intros st; reflexivity. Qed.

Lemma keeps_fetches_modify (f : State -> State) :
  (forall st, trace (f st) = trace st) -> keeps_fetches (modify f).
Proof. intros Hf st; simpl. rewrite Hf. reflexivity. Qed.

Lemma keeps_fetches_try_catch {A} (m : M A) (h : Val -> M A) :
  keeps_fetches m -> (forall e, keeps_fetches (h e)) -> keeps_fetches (try_catch m h).
Proof.
  intros Hm Hh st. unfold try_catch.
  specialize (Hm st). destruct (m st) as [[a | e] st1]; simpl in *.
  - exact Hm.
  - rewrite Hh. exact Hm.
Qed.

Lemma fetches_app (tr1 tr2 : list Event) :
  fetches (tr1 ++ tr2) = fetches tr1 ++ fetches tr2.
Proof. apply List.filter_app. Qed.

Lemma keeps_fetches_emit (ev : Event) :
  fetches [ev] = [] -> keeps_fetches (emit ev).
Proof.
  intros Hev st; simpl. rewrite fetches_app, Hev. apply app_nil_r.
Qed.

Lemma keeps_fetches_on_spec {A} (this : nat) (m : SpecM A) :
  keeps_fetches (on_spec this m).
Proof. intros st; reflexivity. Qed.

Lemma keeps_fetches_update_spec (this : nat) (f : FrisbySpec -> FrisbySpec) :
  keeps_fetches (update_spec this f).
Proof. intros st; reflexivity. Qed.

Lemma keeps_fetches_new_promise (ps : PromiseState) : keeps_fetches (new_promise ps).
Proof. intros st; reflexivity. Qed.

Lemma keeps_fetches_promise_then (p : nat) (onF onR : Val) :
  keeps_fetches (promise_then p onF onR).
Proof.
  intros st. rewrite promise_then_eq; simpl. rewrite trace_register. reflexivity.
Qed.

Create HintDb fetches discriminated.
#[local] Hint Resolve keeps_fetches_bind keeps_fetches_ret keeps_fetches_throw
  keeps_fetches_lift keeps_fetches_gets keeps_fetches_try_catch
  keeps_fetches_on_spec keeps_fetches_update_spec keeps_fetches_new_promise
  keeps_fetches_promise_then : fetches.

Lemma keeps_fetches_call_prim (H : Host) (f : Val) (args : list Val) :
  keeps_fetches (call_prim H f args).
Proof.
  destruct f; simpl; auto with fetches.
  - apply keeps_fetches_bind; [apply keeps_fetches_emit; reflexivity | ].
    intros _ st; reflexivity.
  - apply keeps_fetches_bind; auto with fetches.
    apply keeps_fetches_modify. intros st; apply trace_resolve.
  - apply keeps_fetches_bind; auto with fetches.
    apply keeps_fetches_modify. intros st; apply trace_settle.
Qed.

Lemma keeps_fetches__fetchErrorHandler (H : Host) (this : option nat) (err : Val) :
  keeps_fetches (_fetchErrorHandler H this err).
Proof.
  destruct this as [s | ]; simpl; auto with fetches.
  apply keeps_fetches_bind; auto with fetches. intros o.
  destruct (truthy (_expectError o)); [apply keeps_fetches_call_prim | ].
  destruct (fail_defined H).
  { apply keeps_fetches_bind; auto with fetches. apply keeps_fetches_emit; reflexivity. }
  destruct (expect_defined H); auto with fetches.
  apply keeps_fetches_bind; auto with fetches. intros stack.
  apply keeps_fetches_bind; auto with fetches. apply keeps_fetches_emit; reflexivity.
Qed.

Lemma keeps_fetches_then_ (this : nat) (fn : Val) : keeps_fetches (then_ this fn).
Proof.
  unfold then_. destruct (instanceof_FrisbySpec fn); auto with fetches.
  apply keeps_fetches_bind; auto with fetches. intros _.
  apply keeps_fetches_bind; auto with fetches. intros o.
  destruct (_fetch o); auto with fetches.
  apply keeps_fetches_bind; auto with fetches. intros d.
  apply keeps_fetches_bind; auto with fetches.
  apply keeps_fetches_promise_then.
Qed.

Lemma keeps_fetches_invoke_then (v fn : Val) : keeps_fetches (invoke_then v fn).
Proof.
  destruct v; simpl; auto with fetches.
  apply keeps_fetches_then_.
Qed.

Lemma keeps_fetches_expect_runner (H : Host) (this : nat) (h : Val)
    (args : list Val) (pass : bool) (response : Val) :
  keeps_fetches (expect_runner H this h args pass response).
Proof.
  unfold expect_runner. apply keeps_fetches_try_catch.
  - apply keeps_fetches_bind; auto with fetches. apply keeps_fetches_call_prim.
  - intros e. destruct pass; auto with fetches.
    apply keeps_fetches_bind; auto with fetches.
    apply keeps_fetches__fetchErrorHandler.
Qed.

Lemma keeps_fetches_call_expect (H : Host) (f response : Val) :
  keeps_fetches (call_expect H f response).
Proof.
  destruct f as [ | | | | | | | | | | | | | | c];
    try exact (keeps_fetches_call_prim H _ [response]).
  destruct c; try exact (keeps_fetches_call_prim H (VClosure _) [response]).
  apply keeps_fetches_expect_runner.
Qed.

Lemma keeps_fetches_run_expects_loop (H : Host) (this : nat) (es : list Val) :
  keeps_fetches (run_expects_loop H this es).
Proof.
  induction es as [ | e es IH]; simpl; auto with fetches.
  apply keeps_fetches_bind; auto with fetches. intros o.
  apply keeps_fetches_bind; auto with fetches.
  apply keeps_fetches_call_expect.
Qed.

Lemma keeps_fetches_then_callback (call_fn : list Val -> M Val) (this : nat)
    (fn responseBody : Val) :
  (forall args, keeps_fetches (call_fn args)) ->
  keeps_fetches (then_callback call_fn this fn responseBody).
Proof.
  intros Hfn. unfold then_callback.
  apply keeps_fetches_bind; auto with fetches. intros o.
  apply keeps_fetches_bind.
  - destruct (truthy (_lastResult o) &&
              (instanceof_FrisbySpec (_lastResult o) || instanceof_Promise (_lastResult o))).
    + apply keeps_fetches_bind; [apply keeps_fetches_invoke_then | ]. intros r.
      apply keeps_fetches_bind; auto with fetches. intros o'.
      apply keeps_fetches_bind; auto with fetches.
      destruct (truthy (_doneFn o')); auto with fetches.
      apply keeps_fetches_bind; auto with fetches.
      apply keeps_fetches_invoke_then.
    + apply keeps_fetches_bind; auto with fetches.
  - intros r. destruct (truthy r); auto with fetches.
Qed.

Lemma keeps_fetches_response_json (H : Host) (r : Response) :
  keeps_fetches (response_json H r).
Proof.
  unfold response_json. apply keeps_fetches_bind; auto with fetches.
  destruct (JSON_parse H (res_body r)); auto with fetches.
Qed.

Lemma keeps_fetches_store_body (this : nat) (v : Val) : keeps_fetches (store_body this v).
Proof.
  unfold store_body. apply keeps_fetches_bind; auto with fetches. intros o.
  destruct (_response o); auto with fetches.
  apply keeps_fetches_modify. reflexivity.
Qed.

Lemma keeps_fetches__runExpects (this : nat) : keeps_fetches (_runExpects this).
Proof.
  unfold _runExpects.
  apply keeps_fetches_bind; auto with fetches. intros _.
  apply keeps_fetches_bind; auto with fetches.
  apply keeps_fetches_then_.
Qed.

(** No function the event loop calls sends a request. *)
Lemma keeps_fetches_call (H : Host) (f : Val) (args : list Val) :
  keeps_fetches (call H f args).
Proof.
  revert f args. fix IH 1. intros f args.
  destruct f as [ | | | | | | | | | | | | | | c];
    try exact (keeps_fetches_call_prim H _ args).
  destruct c; simpl.
  - destruct (hd VUndefined args); auto with fetches.
    apply keeps_fetches_bind; auto with fetches. intros [resp | ]; auto with fetches.
    apply keeps_fetches_response_json.
  - apply keeps_fetches_bind; [apply keeps_fetches_store_body | ]. intros _.
    apply keeps_fetches_bind; [apply keeps_fetches__runExpects | ].
    auto with fetches.
  - apply keeps_fetches_bind; auto with fetches. intros _.
    destruct (hd VUndefined args); auto with fetches.
    apply keeps_fetches_bind; auto with fetches. intros [resp | ]; auto with fetches.
    destruct (declares_json (res_headers resp)).
    + apply keeps_fetches_response_json.
    + unfold response_text. auto with fetches.
  - apply keeps_fetches_bind; [apply keeps_fetches_store_body | ]. intros _.
    apply keeps_fetches_bind; [apply keeps_fetches__runExpects | ].
    auto with fetches.
  - apply keeps_fetches__fetchErrorHandler.
  - apply keeps_fetches_then_callback. intros args'. apply IH.
  - apply keeps_fetches_call_prim.
  - apply keeps_fetches_bind; auto with fetches. intros o.
    destruct (truthy (_doneFn o)); auto with fetches.
    apply keeps_fetches_call_prim.
  - apply keeps_fetches_bind; auto with fetches. intros o.
    apply keeps_fetches_bind; auto with fetches.
    apply keeps_fetches_run_expects_loop.
  - apply keeps_fetches_expect_runner.
Qed.

Lemma fetches_run_job (H : Host) (j : Job) (st : State) :
  fetches (trace (run_job H j st)) = fetches (trace st).
Proof.
  destruct j as [handler ok argument target | p thenable]; simpl.
  - destruct (is_callable handler).
    + pose proof (keeps_fetches_call H handler [argument] st) as Hcall.
      destruct (call H handler [argument] st) as [[v | e] st1]; simpl in Hcall.
      * rewrite trace_resolve. exact Hcall.
      * rewrite trace_settle. exact Hcall.
    + destruct ok; [rewrite trace_resolve | rewrite trace_settle]; reflexivity.
  - match goal with |- context [?m st] => assert (Hm : keeps_fetches m) end.
    { destruct thenable; try apply keeps_fetches_invoke_then.
      all: try (destruct (obj_lookup "then" props); auto with fetches;
                apply keeps_fetches_call).
      all: apply keeps_fetches_bind; auto with fetches. }
    specialize (Hm st).
    match goal with |- context [?m st] => destruct (m st) as [[v | e] st1] end;
      simpl in Hm; [ | rewrite trace_settle]; exact Hm.
Qed.

(** However long the event loop runs, it sends nothing to the network. *)
Lemma fetches_run_jobs (H : Host) (fuel : nat) (st : State) :
  fetches (trace (run_jobs H fuel st)) = fetches (trace st).
Proof.
  revert st. induction fuel as [ | fuel IH]; intros st; simpl; [reflexivity | ].
  destruct (jobs st) as [ | j rest] eqn:Hjobs; [reflexivity | ].
  rewrite IH, fetches_run_job. reflexivity.
Qed.

(** ** Running assertions changes neither specs nor responses *)

Section LoopFrame.

Context {X : Type} (obs : State -> X).
Hypothesis obs_promises : forall ps st, obs (set_promises ps st) = obs st.
Hypothesis obs_jobs : forall js st, obs (set_jobs js st) = obs st.
Hypothesis obs_trace : forall tr st, obs (set_trace tr st) = obs st.

Lemma obs_settle (p : nat) (ok : bool) (v : Val) (st : State) :
  obs (settle p ok v st) = obs st.
Proof.
  unfold settle.
  destruct (promises st !! p) as [[[] rs] | ]; rewrite ?obs_jobs, ?obs_promises; reflexivity.
Qed.

Lemma obs_resolve (p : nat) (x : Val) (st : State) : obs (resolve p x st) = obs st.
Proof.
  unfold resolve, enqueue.
  destruct x; try destruct (Nat.eqb p p0); try destruct (is_thenable _);
    rewrite ?obs_jobs, ?obs_settle; reflexivity.
Qed.

Lemma keeps_bind {A B} (m : M A) (k : A -> M B) :
  keeps obs m -> (forall a, keeps obs (k a)) -> keeps obs (bind m k).
Proof.
  intros Hm Hk st. unfold bind.
  specialize (Hm st). destruct (m st) as [[a | e] st1]; simpl in *.
  - rewrite Hk. exact Hm.
  - exact Hm.
Qed.

Lemma keeps_call_prim (H : Host) (f : Val) (args : list Val) :
  keeps obs (call_prim H f args).
Proof.
  destruct f; intros st; simpl; try reflexivity.
  - apply obs_trace.
  - apply obs_resolve.
  - apply obs_settle.
Qed.

Lemma keeps__fetchErrorHandler (H : Host) (this : option nat) (err : Val) :
  keeps obs (_fetchErrorHandler H this err).
Proof.
  destruct this as [s | ]; [ | intros st; reflexivity].
  intros st. rewrite _fetchErrorHandler_policy.
  destruct (truthy (_expectError (spec_of s st))); [apply keeps_call_prim | ].
  destruct (fail_defined H); [apply obs_trace | ].
  destruct (expect_defined H); [ | reflexivity].
  destruct (get_prop err "stack"); [apply obs_trace | reflexivity].
Qed.

Lemma keeps_try_catch {A} (m : M A) (h : Val -> M A) :
  keeps obs m -> (forall e, keeps obs (h e)) -> keeps obs (try_catch m h).
Proof.
  intros Hm Hh st. unfold try_catch.
  specialize (Hm st). destruct (m st) as [[a | e] st1]; simpl in *.
  - exact Hm.
  - rewrite Hh. exact Hm.
Qed.

Lemma keeps_ret {A} (a : A) : keeps obs (ret a).
Proof. intros st; reflexivity. Qed.

Lemma keeps_expect_runner (H : Host) (this : nat) (h : Val) (args : list Val)
    (pass : bool) (response : Val) :
  keeps obs (expect_runner H this h args pass response).
Proof.
  unfold expect_runner. apply keeps_try_catch.
  - apply keeps_bind; [apply keeps_call_prim | intros _; apply keeps_ret].
  - intros e. destruct pass; [ | apply keeps_ret].
    apply keeps_bind; [apply keeps__fetchErrorHandler | intros _; apply keeps_ret].
Qed.



End LoopFrame.

(** ** Stepping the event loop on a given state *)

Lemma resolve_data (p : nat) (x : Val) (st : State) :
  is_thenable x = false -> resolve p x st = settle p true x st.
Proof.
  unfold resolve. destruct x; simpl; try reflexivity; try discriminate.
  intros ->. reflexivity.
Qed.

Lemma run_jobs_S (H : Host) (fuel : nat) (st : State) :
  run_jobs H (S fuel) st =
    match jobs st with
    | [] => st
    | j :: rest => run_jobs H fuel (run_job H j (set_jobs rest st))
    end.
Proof. reflexivity. Qed.

Lemma run_jobs_idle (H : Host) (fuel : nat) (st : State) :
  jobs st = [] -> run_jobs H fuel st = st.
Proof. intros Hidle. destruct fuel; simpl; [ | rewrite Hidle]; reflexivity. Qed.

Lemma run_jobs_add (H : Host) (n m : nat) (st : State) :
  run_jobs H (n + m) st = run_jobs H m (run_jobs H n st).
Proof.
  revert st. induction n as [ | n IH]; intros st; simpl; [reflexivity | ].
  destruct (jobs st) as [ | j rest] eqn:Hjobs.
  - symmetry. apply run_jobs_idle. exact Hjobs.
  - apply IH.
Qed.

Arguments run_jobs : simpl never.
Arguments resolve : simpl never.

(** Bring the state the loop is about to run on into normal form. *)
Ltac eval_state :=
  match goal with
  | |- context [run_jobs ?H ?n ?s] =>
      let s' := eval vm_compute in s in change s with s'
  end.

Ltac next_job := rewrite run_jobs_S; cbn.

(** ** The synthetic response *)

(** C5: after [fromJSON(json)] on a value that survives the JSON round trip,
    the response of the spec has status 200, a JSON content type and, once
    the first four microtasks have run, the input as its body; this holds
    however the spec was configured before.  No run of the event loop sends
    a request, and on a spec without assertions or earlier results the loop
    comes to rest after seven microtasks with the same response. *)
Theorem fromJSON_response_snapshot (H : Host) (json : Val) (jsonString : string)
    (o : FrisbySpec) :
  JSON_stringify H json = Some jsonString ->
  JSON_parse H jsonString = Some json ->
  is_thenable json = false ->
  let st0 := set_specs [o] initial_state in
  let st1 := snd (fromJSON H 0 json st0) in
  let snapshot :=
    {| res_url := "/"; res_status := 200; res_statusText := "OK";
       res_headers := [("content-type", "application/json")];
       res_body := jsonString;
       res_size := Z.of_nat (String.length jsonString);
       res_timeout := 0; _body := json |} in
  fst (fromJSON H 0 json st0) = Normal (VSpec 0) /\
  declares_json (res_headers snapshot) = true /\
  _response (spec_of 0 (run_jobs H 4 st1)) = VResponse 0 /\
  responses (run_jobs H 4 st1) = [snapshot] /\
  (forall fuel, fetches (trace (run_jobs H fuel st1)) = []) /\
  (_expects o = [] -> _lastResult o = VUndefined ->
   forall fuel, (7 <= fuel)%nat ->
     jobs (run_jobs H fuel st1) = [] /\
     trace (run_jobs H fuel st1) = [] /\
     _response (spec_of 0 (run_jobs H fuel st1)) = VResponse 0 /\
     responses (run_jobs H fuel st1) = [snapshot]).
Proof.
  intros Hstr Hparse Hdata st0 st1 snapshot.
  assert (Hst1 : fromJSON H 0 json st0 =
    (Normal (VSpec 0),
     {| promises :=
          [{| pstate := Fulfilled (VResponse 0); reactions := [] |};
           {| pstate := Pending;
              reactions := [{| onFulfilled := VClosure (FromJSON_store 0);
                               onRejected := VUndefined; derived := 2 |}] |};
           {| pstate := Pending;
              reactions := [{| onFulfilled := VUndefined;
                               onRejected := VClosure (ErrorHandler None);
                               derived := 3 |}] |};
           {| pstate := Pending; reactions := [] |}];
        specs := [with_fetch (Some 3%nat) (with_response (VResponse 0) o)];
        responses := [set_body VUndefined snapshot];
        jobs := [ReactionJob (VClosure FromJSON_decode) true (VResponse 0) 1];
        trace := [];
        expectHandlers := [] |})).
  { unfold fromJSON. rewrite Hstr. reflexivity. }
  subst st1. rewrite Hst1. cbn [fst snd].
  split; [reflexivity | split; [reflexivity | ]].
  match goal with |- context [run_jobs H 4 ?s] => set (st1 := s) end.
  assert (Hfour : run_jobs H 4 st1 =
    {| promises :=
         [{| pstate := Fulfilled (VResponse 0); reactions := [] |};
          {| pstate := Fulfilled json; reactions := [] |};
          {| pstate := Fulfilled json; reactions := [] |};
          {| pstate := Pending;
             reactions :=
               [{| onFulfilled := VClosure (ThenCb 0 (VClosure (RunExpects 0)));
                   onRejected := VUndefined; derived := 6 |}] |};
          {| pstate := Fulfilled json; reactions := [] |};
          {| pstate := Fulfilled VUndefined; reactions := [] |};
          {| pstate := Pending;
             reactions := [{| onFulfilled := VUndefined;
                              onRejected := VClosure (ErrorHandler (Some 0%nat));
                              derived := 7 |}] |};
          {| pstate := Pending; reactions := [] |}];
       specs := [with_fetch (Some 3%nat) (with_response (VResponse 0) o)];
       responses := [snapshot];
       jobs := [ReactionJob VUndefined true json 3];
       trace := [];
       expectHandlers := [] |}).
  { subst st1 snapshot.
    destruct H as [fnb fd ed str par mrg], o as [f d rq rs es ee t sd lr].
    simpl in Hstr, Hparse.
    generalize (Z.of_nat (String.length jsonString)); intros sz.
    next_job. unfold response_json; cbn. rewrite Hparse; cbn.
    unfold resolve; cbn. eval_state.
    next_job. eval_state.
    next_job. rewrite (resolve_data _ json) by assumption. eval_state.
    next_job. rewrite (resolve_data _ json) by assumption. eval_state.
    reflexivity. }
  split; [rewrite Hfour; reflexivity | ].
  split; [rewrite Hfour; reflexivity | ].
  split; [intros fuel; rewrite fetches_run_jobs; reflexivity | ].
  intros Hes Hlr fuel Hfuel.
  replace fuel with (4 + (3 + (fuel - 7)))%nat by lia.
  rewrite run_jobs_add, Hfour, run_jobs_add.
  match goal with |- context [run_jobs H 3 ?s] => set (st4 := s) end.
  assert (Hseven : run_jobs H 3 st4 =
    {| promises :=
         [{| pstate := Fulfilled (VResponse 0); reactions := [] |};
          {| pstate := Fulfilled json; reactions := [] |};
          {| pstate := Fulfilled json; reactions := [] |};
          {| pstate := Fulfilled json; reactions := [] |};
          {| pstate := Fulfilled json; reactions := [] |};
          {| pstate := Fulfilled VUndefined; reactions := [] |};
          {| pstate := Fulfilled json; reactions := [] |};
          {| pstate := Fulfilled json; reactions := [] |}];
       specs :=
         [with_lastResult VUndefined
            (with_fetch (Some 3%nat) (with_response (VResponse 0) o))];
       responses := [snapshot];
       jobs := [];
       trace := [];
       expectHandlers := [] |}).
  { subst st4 st1 snapshot.
    destruct H as [fnb fd ed str par mrg], o as [f d rq rs es ee t sd lr].
    simpl in Hstr, Hparse, Hes, Hlr. subst es lr.
    generalize (Z.of_nat (String.length jsonString)); intros sz.
    next_job. rewrite (resolve_data _ json) by assumption. eval_state.
    next_job.
    destruct (truthy json) eqn:Htruthy; cbn;
      rewrite (resolve_data _ json) by assumption; eval_state.
    all: next_job; rewrite (resolve_data _ json) by assumption; eval_state.
    all: reflexivity. }
  rewrite Hseven. rewrite run_jobs_idle by reflexivity.
  repeat split.
Qed.

Lemma fromJSON_response_snapshot_witness :
  let json := VObj [("a", VNum 1)] in
  let st1 := snd (fromJSON Demo.host 0 json (set_specs [constructor] initial_state)) in
  is_thenable json = false /\
  (exists resp,
     responses (run_jobs Demo.host 4 st1) = [resp] /\
     res_status resp = 200 /\ _body resp = json).
Proof.
  intros json st1.
  destruct (fromJSON_response_snapshot Demo.host json
              (default EmptyString (Demo.stringify json)) constructor)
    as (_ & _ & _ & Hresp & _).
  - reflexivity.
  - reflexivity.
  - reflexivity.
  - split; [reflexivity | ].
    eexists. split; [exact Hresp | split; reflexivity].
Defined.

(** ** The response of the network *)

Arguments timeout : simpl never.
Arguments get_prop : simpl nomatch.
Arguments truthy : simpl nomatch.
Arguments declares_json : simpl never.




(** ** The callback of [then] *)

(** When the last result is not asynchronous, the callback calls the
    continuation on the value of [_fetch], records what it returned and
    resolves to that, or to the value it was given when nothing (or anything
    falsy) was returned. *)
Lemma then_callback_direct (H : Host) (this : nat) (fn responseBody : Val) (st : State) :
  async_result (_lastResult (spec_of this st)) = false ->
  call H (VClosure (ThenCb this fn)) [responseBody] st =
    match call H fn [responseBody] st with
    | (Normal result, st1) =>
        (Normal (if truthy result then result else responseBody),
         set_specs (alter (with_lastResult result) this (specs st1)) st1)
    | (Throw e, st1) => (Throw e, st1)
    end.
Proof.
  intros Hlast.
  change (call H (VClosure (ThenCb this fn)) [responseBody] st)
    with (then_callback (call H fn) this fn responseBody st).
  unfold then_callback. rewrite bind_gets.
  fold (async_result (_lastResult (spec_of this st))). rewrite Hlast.
  unfold bind at 1. unfold bind at 1.
  destruct (call H fn [responseBody] st) as [[result | e] st1]; [ | reflexivity].
  rewrite bind_update_spec. cbv beta.
  unfold ret. destruct (truthy result); reflexivity.
Qed.


Lemma insert_spec_of (this : nat) (st : State) :
  <[this := spec_of this st]> (specs st) = specs st.
Proof.
  unfold spec_of. destruct (specs st !! this) as [o | ] eqn:Hthis.
  - apply list_insert_id. exact Hthis.
  - apply list_insert_ge. apply lookup_ge_None. exact Hthis.
Qed.

Lemma on_spec__ensureHasFetched (this : nat) (st : State) :
  on_spec this _ensureHasFetched st =
    (match _fetch (spec_of this st) with
     | None => Throw not_started
     | Some _ => Normal tt
     end, st).
Proof.
  unfold on_spec, _ensureHasFetched.
  destruct (_fetch (spec_of this st)); simpl;
    rewrite insert_spec_of, set_specs_same; reflexivity.
Qed.

(** [then] on a promise that is already fulfilled queues the reaction. *)
Lemma promise_then_on_fulfilled (q : nat) (onF onR v : Val) (st : State) :
  fulfilled_value st q = Some v ->
  promise_then q onF onR st =
    (Normal (length (promises st)),
     set_jobs (jobs st ++ [ReactionJob onF true v (length (promises st))])
       (set_promises (promises st ++ [{| pstate := Pending; reactions := [] |}]) st)).
Proof.
  unfold fulfilled_value. intros Hq.
  rewrite promise_then_eq. f_equal.
  unfold register. cbn [promises set_promises].
  destruct (promises st !! q) as [[ps rs] | ] eqn:Hlook; [ | discriminate].
  rewrite (lookup_app_l_Some _ _ _ _ Hlook). cbn [pstate].
  destruct ps; try discriminate. injection Hq as ->. reflexivity.
Qed.

Lemma alter_middle {A} (f : A -> A) (l1 l2 : list A) (x : A) :
  alter f (length l1) (l1 ++ x :: l2) = l1 ++ f x :: l2.
Proof.
  induction l1 as [ | y l1 IH]; [reflexivity | ].
  cbn. f_equal. exact IH.
Qed.

(** [then] on the promise just created keeps the reaction with it. *)
Lemma promise_then_on_new (onF onR : Val) (st : State) (cells : list PromiseCell) :
  promises st = cells ++ [{| pstate := Pending; reactions := [] |}] ->
  promise_then (length cells) onF onR st =
    (Normal (length (promises st)),
     set_promises
       (cells ++
        [{| pstate := Pending;
            reactions := [{| onFulfilled := onF; onRejected := onR;
                             derived := length (promises st) |}] |};
         {| pstate := Pending; reactions := [] |}]) st).
Proof.
  intros Hcells. rewrite promise_then_eq. f_equal.
  unfold register, add_reaction. cbn [promises set_promises].
  rewrite Hcells.
  rewrite <- app_assoc. cbn [app].
  rewrite list_lookup_middle by reflexivity. cbn [pstate reactions].
  unfold set_promises. cbn [promises specs responses jobs trace expectHandlers].
  rewrite alter_middle. reflexivity.
Qed.

(** [then(fn)] on a spec whose root task is fulfilled queues the callback. *)
Lemma then__on_fulfilled (s p : nat) (fn v : Val) (st : State) :
  instanceof_FrisbySpec fn = false ->
  _fetch (spec_of s st) = Some p ->
  fulfilled_value st p = Some v ->
  then_ s fn st =
    (Normal (VSpec s),
     set_promises
       (promises st ++
        [{| pstate := Pending;
            reactions := [{| onFulfilled := VUndefined;
                             onRejected := VClosure (ErrorHandler (Some s));
                             derived := S (length (promises st)) |}] |};
         {| pstate := Pending; reactions := [] |}])
       (set_jobs
          (jobs st ++ [ReactionJob (VClosure (ThenCb s fn)) true v (length (promises st))])
          st)).
Proof.
  intros Hfn Hfetch Hroot. unfold then_. rewrite Hfn.
  erewrite bind_eq; [ | rewrite on_spec__ensureHasFetched, Hfetch; reflexivity].
  rewrite bind_gets, Hfetch.
  erewrite bind_eq; [ | apply promise_then_on_fulfilled; exact Hroot].
  unfold promise_catch.
  erewrite bind_eq; [ | apply promise_then_on_new; reflexivity].
  unfold ret. cbn [promises set_promises set_jobs].
  rewrite length_app. cbn [length]. rewrite Nat.add_1_r.
  reflexivity.
Qed.



Lemma bind_unfold {A B} (m : M A) (k : A -> M B) (st : State) :
  bind m k st =
    match m st with
    | (Normal a, st1) => k a st1
    | (Throw e, st1) => (Throw e, st1)
    end.
Proof. reflexivity. Qed.

Lemma then__eq (s : nat) (fn : Val) (st : State) :
  then_ s fn st =
    if instanceof_FrisbySpec fn then (Normal fn, st)
    else match _fetch (spec_of s st) with
         | None => (Throw not_started, st)
         | Some p =>
             let st1 := snd (promise_then p (VClosure (ThenCb s fn)) VUndefined st) in
             (Normal (VSpec s),
              snd (promise_then (length (promises st)) VUndefined
                     (VClosure (ErrorHandler (Some s))) st1))
         end.
Proof.
  unfold then_. destruct (instanceof_FrisbySpec fn); [reflexivity | ].
  unfold bind at 1. rewrite on_spec__ensureHasFetched.
  destruct (_fetch (spec_of s st)) as [p | ] eqn:Hfetch; [ | reflexivity].
  rewrite bind_gets, Hfetch. reflexivity.
Qed.




Lemma call_function (H : Host) (f : nat) (args : list Val) (st : State) :
  call H (VFun f) args st =
    (fn_body H f (set_trace (trace st ++ [EvCall f args]) st) args,
     set_trace (trace st ++ [EvCall f args]) st).
Proof. reflexivity. Qed.

(** A job that runs the [then] callback of a spec whose last result is not
    asynchronous calls the continuation on the value of the job. *)
Lemma run_job_calls_continuation (H : Host) (s g : nat) (v : Val) (d : nat) (st : State) :
  async_result (_lastResult (spec_of s st)) = false ->
  trace (run_job H (ReactionJob (VClosure (ThenCb s (VFun g))) true v d) st) =
    trace st ++ [EvCall g [v]].
Proof.
  intros Hlast. cbn [run_job is_callable].
  rewrite (then_callback_direct H s (VFun g) v st Hlast), call_function.
  destruct (fn_body H g _ [v]) as [r | e];
    rewrite ?trace_resolve, ?trace_settle; reflexivity.
Qed.




(** ** Continuations that return nothing *)

Lemma jobs_settle (p : nat) (ok : bool) (v : Val) (st : State) :
  exists more, jobs (settle p ok v st) = jobs st ++ more.
Proof.
  unfold settle.
  destruct (promises st !! p) as [[[] rs] | ]; cbn [jobs set_jobs set_promises];
    try (exists []; symmetry; apply app_nil_r); eexists; reflexivity.
Qed.

Lemma jobs_resolve (p : nat) (x : Val) (st : State) :
  exists more, jobs (resolve p x st) = jobs st ++ more.
Proof.
  unfold resolve, enqueue.
  destruct x; try destruct (Nat.eqb p p0); try destruct (is_thenable _);
    try apply jobs_settle; eexists; reflexivity.
Qed.





(** The same chain registered before the root task resolves: both
    continuations are called on the body of the response. *)
Example then_returning_nothing_runs :
  trace (run_jobs Demo.host 30 (snd (Programs.then_returning_nothing initial_state))) =
    [EvCall 0 [VNum 7]; EvCall 1 [VNum 7]].
Proof. reflexivity. Qed.

(** With specs as the nested values, the bookkeeping of each nested spec
    flattens the next level: the three continuations are called on the bodies
    of the three specs in turn. *)
Example two_nested_specs_flatten :
  trace (run_jobs Demo.host 60 (snd (Programs.two_nested_specs initial_state))) =
    [EvCall 21 [VNum 7]; EvCall 22 [VNum 8]; EvCall 1 [VNum 9]].
Proof. reflexivity. Qed.

(** A request that times out goes out with the shared default timeout and
    reaches the failure channel once. *)
Example slow_fetch_times_out :
  trace (run_jobs Demo.host 30 (snd (Programs.slow_fetch initial_state))) =
    [EvFetch {| req_url := VStr "/slow"; req_init := [("timeout", VNum 10)] |} (VNum 10) 0;
     EvFail (VError "FetchError" "network timeout")].
Proof. reflexivity. Qed.
(** * Further properties *)

(** ** Chaining on a spec that has not been started *)

(** X1: on a spec without a root task, [then] and [_runExpects] throw the
    descriptive error and leave the state as it is, [promise] answers
    [undefined], and [done] throws a TypeError after it has stored the
    callback.  A spec passed to [then] is returned as it is, whether the
    receiver was started or not. *)
Theorem unstarted_spec_rejects_chaining (this : nat) (fn doneFn : Val) (st : State)
    (o : FrisbySpec) :
  specs st !! this = Some o ->
  _fetch o = None ->
  (forall s, then_ this (VSpec s) st = (Normal (VSpec s), st)) /\
  (instanceof_FrisbySpec fn = false -> then_ this fn st = (Throw not_started, st)) /\
  _runExpects this st = (Throw not_started, st) /\
  promise this st = (Normal None, st) /\
  fst (done this doneFn st) =
    Throw (type_error "Cannot read property 'then' of undefined") /\
  spec_of this (snd (done this doneFn st)) = with_doneFn doneFn o.
Proof.
  intros Hthis Hfetch.
  assert (Ho : spec_of this st = o) by (apply spec_of_lookup; exact Hthis).
  split; [reflexivity | ].
  split.
  { intros Hfn. rewrite then__eq, Hfn, Ho, Hfetch. reflexivity. }
  split.
  { unfold _runExpects. apply bind_unfold_throw.
    rewrite on_spec__ensureHasFetched, Ho, Hfetch. reflexivity. }
  split.
  { unfold promise. rewrite bind_gets, Ho, Hfetch. reflexivity. }
  assert (Hafter : spec_of this (set_specs (alter (with_doneFn doneFn) this (specs st)) st) =
                   with_doneFn doneFn o).
  { unfold spec_of. cbn [specs set_specs].
    rewrite list_lookup_alter_eq, Hthis. reflexivity. }
  unfold done. rewrite bind_update_spec, bind_gets, Hafter. cbn [_fetch with_doneFn].
  rewrite Hfetch. split; [reflexivity | exact Hafter].
Qed.

Lemma unstarted_spec_rejects_chaining_witness :
  let st := snd (new_FrisbySpec initial_state) in
  then_ 0 (VFun 1) st = (Throw not_started, st) /\
  _doneFn (spec_of 0 (snd (done 0 (VFun 0) st))) = VFun 0.
Proof.
  intros st.
  destruct (unstarted_spec_rejects_chaining 0 (VFun 1) (VFun 0) st constructor)
    as (_ & Hthen & _ & _ & _ & Hdone).
  - reflexivity.
  - reflexivity.
  - split; [apply Hthen; reflexivity | rewrite Hdone; reflexivity].
Defined.
(** ** The completion callback *)

Lemma spec_of_after_doneFn (this : nat) (doneFn : Val) (st : State) :
  spec_of this (set_specs (alter (with_doneFn doneFn) this (specs st)) st) =
    match specs st !! this with
    | Some o => with_doneFn doneFn o
    | None => constructor
    end.
Proof.
  unfold spec_of. cbn [specs set_specs]. rewrite list_lookup_alter_eq.
  destruct (specs st !! this); reflexivity.
Qed.

Lemma done_on_fulfilled (this p : nat) (doneFn v : Val) (st : State) :
  _fetch (spec_of this st) = Some p ->
  fulfilled_value st p = Some v ->
  done this doneFn st =
    (Normal (VSpec this),
     set_jobs
       (jobs st ++
        [ReactionJob (VClosure (DoneCb this doneFn)) true v (length (promises st))])
       (set_promises (promises st ++ [{| pstate := Pending; reactions := [] |}])
          (set_specs (alter (with_doneFn doneFn) this (specs st)) st))).
Proof.
  intros Hfetch Hroot. unfold done.
  rewrite bind_update_spec, bind_gets, spec_of_after_doneFn.
  unfold spec_of in Hfetch.
  destruct (specs st !! this) as [o | ]; [ | discriminate].
  cbn [_fetch with_doneFn]. rewrite Hfetch.
  rewrite bind_unfold, promise_then_on_fulfilled with (v := v) by exact Hroot.
  reflexivity.
Qed.

Lemma run_job_done_callback (H : Host) (this d : nat) (ok : bool) (v : Val) (tgt : nat)
    (st : State) :
  truthy (_doneFn (spec_of this st)) = true ->
  let st' := run_job H (ReactionJob (VClosure (DoneCb this (VFun d))) ok v tgt) st in
  trace st' = trace st ++ [EvCall d []] /\
  specs st' = specs st /\
  exists more, jobs st' = jobs st ++ more.
Proof.
  intros Hdone. cbn [run_job is_callable call]. rewrite bind_gets, Hdone.
  change (call_prim H (VFun d) [] st)
    with (fn_body H d (set_trace (trace st ++ [EvCall d []]) st) [],
          set_trace (trace st ++ [EvCall d []]) st).
  destruct (fn_body H d _ []) as [r | e].
  - rewrite trace_resolve, specs_resolve. repeat split.
    destruct (jobs_resolve tgt r (set_trace (trace st ++ [EvCall d []]) st)) as [more Hm].
    exists more. exact Hm.
  - rewrite trace_settle, specs_settle. repeat split.
    destruct (jobs_settle tgt false e (set_trace (trace st ++ [EvCall d []]) st))
      as [more Hm].
    exists more. exact Hm.
Qed.

(** X2: [done] on a started spec whose root task is fulfilled returns the
    spec and queues its callback; the callback calls the function without
    arguments.  A second [done] overwrites the stored callback and does not
    withdraw the first one: both functions are called, in the order they
    were given. *)
Theorem done_calls_each_callback (H : Host) (this p d1 d2 : nat) (v : Val) (st : State) :
  _fetch (spec_of this st) = Some p ->
  fulfilled_value st p = Some v ->
  jobs st = [] ->
  let st1 := snd (bind (done this (VFun d1)) (fun _ => done this (VFun d2)) st) in
  fst (done this (VFun d1) st) = Normal (VSpec this) /\
  trace st1 = trace st /\
  _doneFn (spec_of this st1) = VFun d2 /\
  trace (run_jobs H 1 st1) = trace st ++ [EvCall d1 []] /\
  trace (run_jobs H 2 st1) = trace st ++ [EvCall d1 []; EvCall d2 []].
Proof.
  intros Hfetch Hroot Hidle st1.
  assert (Hthis : exists o, specs st !! this = Some o).
  { unfold spec_of in Hfetch. destruct (specs st !! this) as [o | ]; [eauto | discriminate]. }
  destruct Hthis as [o Hthis].
  rewrite (done_on_fulfilled this p (VFun d1) v st Hfetch Hroot).
  split; [reflexivity | ].
  subst st1.
  rewrite bind_unfold, (done_on_fulfilled this p (VFun d1) v st Hfetch Hroot).
  match goal with |- context [done this (VFun d2) ?s] => set (sA := s) end.
  assert (HfetchA : _fetch (spec_of this sA) = Some p).
  { subst sA. unfold spec_of in *. cbn [specs set_specs set_promises set_jobs].
    rewrite list_lookup_alter_eq, Hthis in *. exact Hfetch. }
  assert (HrootA : fulfilled_value sA p = Some v).
  { subst sA. unfold fulfilled_value in *. cbn [promises set_specs set_promises set_jobs].
    destruct (promises st !! p) as [c | ] eqn:Hp; [ | discriminate].
    rewrite (lookup_app_l_Some _ _ _ _ Hp). exact Hroot. }
  rewrite (done_on_fulfilled this p (VFun d2) v sA HfetchA HrootA).
  cbn [snd].
  match goal with |- context [run_jobs H 1 ?s] => set (st1 := s) end.
  assert (Hdone1 : forall js, spec_of this (set_jobs js st1) =
                              with_doneFn (VFun d2) (with_doneFn (VFun d1) o)).
  { intros js. subst st1 sA. unfold spec_of.
    cbn [specs set_specs set_promises set_jobs].
    rewrite !list_lookup_alter_eq, Hthis. reflexivity. }
  assert (Htrace1 : trace st1 = trace st) by reflexivity.
  assert (Hjobs1 : jobs st1 =
    [ReactionJob (VClosure (DoneCb this (VFun d1))) true v (length (promises st));
     ReactionJob (VClosure (DoneCb this (VFun d2))) true v (length (promises sA))]).
  { subst st1 sA. cbn [jobs set_specs set_promises set_jobs]. rewrite Hidle. reflexivity. }
  split; [exact Htrace1 | ].
  split.
  { pose proof (Hdone1 []) as Hd. unfold spec_of in Hd |- *.
    cbn [specs set_jobs] in Hd. rewrite Hd. reflexivity. }
  rewrite !run_jobs_S, Hjobs1.
  match goal with |- context [run_job H ?j (set_jobs ?js st1)] =>
    destruct (run_job_done_callback H this d1 true v (length (promises st)) (set_jobs js st1))
      as (HtB & HsB & moreB & HjB);
    [rewrite Hdone1; reflexivity | set (sB := run_job H j (set_jobs js st1)) in * ]
  end.
  cbn [trace jobs set_jobs] in HtB, HjB. rewrite Htrace1 in HtB.
  change (run_jobs H 0 ?s) with s.
  split; [exact HtB | ].
  rewrite run_jobs_S, HjB. cbn [app].
  change (run_jobs H 0 ?s) with s.
  match goal with |- context [run_job H ?j ?s] =>
    destruct (run_job_done_callback H this d2 true v (length (promises sA)) s)
      as (HtC & _)
  end.
  - unfold spec_of. cbn [specs set_jobs]. rewrite HsB.
    change (specs (set_jobs ?js st1)) with (specs st1).
    specialize (Hdone1 []). unfold spec_of in Hdone1. cbn [specs set_jobs] in Hdone1.
    rewrite Hdone1. reflexivity.
  - rewrite HtC. cbn [trace set_jobs]. rewrite HtB, <- app_assoc. reflexivity.
Qed.

Lemma done_calls_each_callback_witness :
  let st := run_jobs Demo.host 10
              (snd (fromJSON Demo.host 0 (VNum 7) (set_specs [constructor] initial_state))) in
  let st1 := snd (bind (done 0 (VFun 0)) (fun _ => done 0 (VFun 1)) st) in
  jobs st = [] /\
  trace (run_jobs Demo.host 2 st1) = [EvCall 0 []; EvCall 1 []].
Proof.
  intros st st1.
  destruct (done_calls_each_callback Demo.host 0 3 0 1 (VNum 7) st)
    as (_ & _ & _ & _ & Htrace).
  - reflexivity.
  - reflexivity.
  - vm_compute. reflexivity.
  - split; [vm_compute; reflexivity | exact Htrace].
Defined.
Lemma fulfilled_value_grows (st : State) (p : nat) (v : Val) (cells : list PromiseCell)
    (js : list Job) :
  fulfilled_value st p = Some v ->
  fulfilled_value (set_jobs js (set_promises (promises st ++ cells) st)) p = Some v.
Proof.
  unfold fulfilled_value. cbn [promises set_promises set_jobs].
  destruct (promises st !! p) as [c | ] eqn:Hp; [ | discriminate].
  rewrite (lookup_app_l_Some _ _ _ _ Hp). trivial.
Qed.

(** X3: while the last result of a spec is a fulfilled promise and a
    completion callback is stored, the callback of any continuation hands
    the completion callback over to that promise and clears the field: the
    continuation and then the completion callback are queued on the value of
    the promise, the reaction [done] attached to the root task no longer
    calls anything, and the moved callback is called without arguments. *)
Theorem done_moves_to_nested_promise (H : Host) (this q d : nat)
    (fn responseBody w : Val) (st : State) (o : FrisbySpec) :
  specs st !! this = Some o ->
  _lastResult o = VPromise q ->
  fulfilled_value st q = Some w ->
  _doneFn o = VFun d ->
  let n := length (promises st) in
  let st1 := snd (call H (VClosure (ThenCb this fn)) [responseBody] st) in
  fst (call H (VClosure (ThenCb this fn)) [responseBody] st) = Normal (VPromise n) /\
  spec_of this st1 = with_doneFn VNull o /\
  trace st1 = trace st /\
  jobs st1 =
    jobs st ++
    [ReactionJob fn true w n; ReactionJob (VClosure (MoveDone (VFun d))) true w (S n)] /\
  (forall args, call H (VClosure (DoneCb this (VFun d))) args st1 = (Normal VNull, st1)) /\
  (forall st' tgt,
     trace (run_job H (ReactionJob (VClosure (MoveDone (VFun d))) true w tgt) st') =
       trace st' ++ [EvCall d []]).
Proof.
  intros Hthis Hlast Hq Hdone n st1.
  assert (Hcall : call H (VClosure (ThenCb this fn)) [responseBody] st =
    (Normal (VPromise n),
     set_specs (alter (with_doneFn VNull) this (specs st))
       (set_jobs
          (jobs st ++
           [ReactionJob fn true w n; ReactionJob (VClosure (MoveDone (VFun d))) true w (S n)])
          (set_promises
             (promises st ++
              [{| pstate := Pending; reactions := [] |};
               {| pstate := Pending; reactions := [] |}]) st)))).
  { cbn [call hd]. unfold then_callback.
    rewrite bind_gets, (spec_of_lookup _ _ _ Hthis), Hlast.
    cbn [truthy instanceof_FrisbySpec instanceof_Promise andb orb invoke_then].
    rewrite !bind_assoc.
    rewrite (bind_unfold (promise_then q fn VUndefined)),
      promise_then_on_fulfilled with (v := w) by exact Hq.
    cbv beta iota. rewrite bind_ret. cbv beta. rewrite !bind_assoc, bind_gets. cbv beta.
    change (spec_of this (set_jobs ?a (set_promises ?b st))) with (spec_of this st).
    rewrite (spec_of_lookup _ _ _ Hthis), Hdone, Hlast.
    cbn [truthy invoke_then]. rewrite !bind_assoc.
    rewrite (bind_unfold (promise_then q _ VUndefined)),
      promise_then_on_fulfilled with (v := w) by (apply fulfilled_value_grows; exact Hq).
    cbv beta iota. rewrite bind_ret. cbv beta. rewrite bind_update_spec. cbv beta.
    rewrite !bind_ret. cbn [truthy]. unfold ret, set_specs, set_jobs, set_promises.
    cbn [promises specs responses jobs trace expectHandlers].
    rewrite length_app, <- !app_assoc. cbn [length app]. rewrite Nat.add_1_r.
    reflexivity. }
  subst st1. rewrite Hcall. cbn [fst snd].
  split; [reflexivity | ].
  assert (Hspec : spec_of this
            (set_specs (alter (with_doneFn VNull) this (specs st))
               (set_jobs
                  (jobs st ++
                   [ReactionJob fn true w n;
                    ReactionJob (VClosure (MoveDone (VFun d))) true w (S n)])
                  (set_promises
                     (promises st ++
                      [{| pstate := Pending; reactions := [] |};
                       {| pstate := Pending; reactions := [] |}]) st))) =
          with_doneFn VNull o).
  { unfold spec_of. cbn [specs set_specs set_jobs set_promises].
    rewrite list_lookup_alter_eq, Hthis. reflexivity. }
  split; [exact Hspec | ].
  split; [reflexivity | ].
  split; [reflexivity | ].
  split.
  - intros args. cbn [call]. rewrite bind_gets, Hspec. reflexivity.
  - intros st' tgt. cbn [run_job is_callable call].
    change (call_prim H (VFun d) [] st')
      with (fn_body H d (set_trace (trace st' ++ [EvCall d []]) st') [],
            set_trace (trace st' ++ [EvCall d []]) st').
    destruct (fn_body H d _ []) as [r | e];
      rewrite ?trace_resolve, ?trace_settle; reflexivity.
Qed.

Lemma done_moves_to_nested_promise_witness :
  let st := set_specs [with_doneFn (VFun 0) (with_lastResult (VPromise 0) constructor)]
              Programs.one_promise_one_spec in
  let st1 := snd (call Demo.host (VClosure (ThenCb 0 (VFun 1))) [VNum 7] st) in
  fulfilled_value st 0 = Some (VNum 1) /\
  _doneFn (spec_of 0 st1) = VNull /\
  jobs st1 =
    [ReactionJob (VFun 1) true (VNum 1) 1;
     ReactionJob (VClosure (MoveDone (VFun 0))) true (VNum 1) 2].
Proof.
  intros st st1.
  destruct (done_moves_to_nested_promise Demo.host 0 0 0 (VFun 1) (VNum 7) (VNum 1) st
              (with_doneFn (VFun 0) (with_lastResult (VPromise 0) constructor)))
    as (_ & Hspec & _ & Hjobs & _).
  - reflexivity.
  - reflexivity.
  - reflexivity.
  - reflexivity.
  - split; [reflexivity | split].
    + fold st1 in Hspec. rewrite Hspec. reflexivity.
    + exact Hjobs.
Defined.
(** ** The custom error handler *)

Lemma spec_of_on_spec {A} (this : nat) (m : SpecM A) (st : State) (o : FrisbySpec) :
  specs st !! this = Some o ->
  specs (snd (on_spec this m st)) !! this = Some (snd (m o)).
Proof.
  intros Hthis. unfold on_spec. cbn [snd specs set_specs].
  rewrite (spec_of_lookup _ _ _ Hthis).
  apply list_lookup_insert_eq. eapply lookup_lt_Some. exact Hthis.
Qed.

(** X4: [catch] replaces the stored handler, so of two calls the later one
    counts.  A truthy handler takes over the failure channel altogether: it
    alone is called on the error, its completion is the completion of the
    channel, and neither [fail] nor [expect] is reached; a truthy value that
    is not a function makes the channel throw a TypeError in place of the
    error.  [catch] with a falsy value gives the channel back to the
    reporter of the host. *)
Theorem catch_last_handler_wins (H : Host) (this : nat) (h1 h2 err : Val) (st : State)
    (o : FrisbySpec) :
  specs st !! this = Some o ->
  let st2 :=
    snd (bind (on_spec this (catch this h1)) (fun _ => on_spec this (catch this h2)) st) in
  spec_of this st2 = with_expectError h2 o /\
  trace st2 = trace st /\
  (forall f, h2 = VFun f ->
     _fetchErrorHandler H (Some this) err st2 =
       (fn_body H f (set_trace (trace st ++ [EvCall f [err]]) st2) [err],
        set_trace (trace st ++ [EvCall f [err]]) st2)) /\
  (truthy h2 = true -> is_callable h2 = false ->
     _fetchErrorHandler H (Some this) err st2 = (Throw not_a_function, st2)) /\
  (truthy h2 = false -> fail_defined H = true ->
     _fetchErrorHandler H (Some this) err st2 =
       (Normal VUndefined, set_trace (trace st ++ [EvFail err]) st2)).
Proof.
  intros Hthis st2.
  assert (Hspec : spec_of this st2 = with_expectError h2 o).
  { apply spec_of_lookup. subst st2. rewrite bind_unfold.
    change (on_spec this (catch this h1) st)
      with (Normal (VSpec this), snd (on_spec this (catch this h1) st)).
    cbv beta iota.
    rewrite (spec_of_on_spec this (catch this h2) _ (with_expectError h1 o)).
    - reflexivity.
    - apply (spec_of_on_spec this (catch this h1) st o Hthis). }
  assert (Htrace : trace st2 = trace st) by reflexivity.
  split; [exact Hspec | ].
  split; [exact Htrace | ].
  split; [ | split].
  - intros f ->. rewrite _fetchErrorHandler_policy, Hspec.
    cbn [_expectError with_expectError truthy call_prim].
    rewrite bind_emit, Htrace. reflexivity.
  - intros Htruthy Hfun. rewrite _fetchErrorHandler_policy, Hspec.
    cbn [_expectError with_expectError]. rewrite Htruthy.
    destruct h2; try discriminate; reflexivity.
  - intros Hfalsy Hfail. rewrite _fetchErrorHandler_policy, Hspec.
    cbn [_expectError with_expectError]. rewrite Hfalsy, Hfail, Htrace. reflexivity.
Qed.

Lemma catch_last_handler_wins_witness :
  let st := snd (new_FrisbySpec initial_state) in
  let boom := VError "Error" "boom" in
  let st2 :=
    snd (bind (on_spec 0 (catch 0 (VFun 1))) (fun _ => on_spec 0 (catch 0 VNull)) st) in
  truthy VNull = false /\
  _fetchErrorHandler Demo.host (Some 0%nat) boom st2 =
    (Normal VUndefined, set_trace [EvFail boom] st2).
Proof.
  intros st boom st2.
  destruct (catch_last_handler_wins Demo.host 0 (VFun 1) VNull boom st constructor)
    as (_ & _ & _ & _ & Hfail).
  - reflexivity.
  - split; [reflexivity | ].
    apply Hfail; reflexivity.
Defined.
(** ** Errors of a continuation *)

Lemma settle_pending (p : nat) (ok : bool) (v : Val) (st : State) (rs : list Reaction) :
  promises st !! p = Some {| pstate := Pending; reactions := rs |} ->
  settle p ok v st =
    set_jobs (jobs st ++ map (reaction_job ok v) rs)
      (set_promises
         (<[p := {| pstate := settled ok v; reactions := [] |}]> (promises st)) st).
Proof. intros Hp. unfold settle. rewrite Hp. reflexivity. Qed.

Lemma insert_middle {A} (l1 l2 : list A) (x y : A) :
  <[length l1 := x]> (l1 ++ y :: l2) = l1 ++ x :: l2.
Proof. induction l1 as [ | a l1 IH]; simpl; [ | rewrite IH]; reflexivity. Qed.

Lemma lookup_second_new {A} (l : list A) (a b : A) :
  (l ++ [a; b]) !! S (length l) = Some b.
Proof. induction l as [ | x l IH]; simpl; [reflexivity | exact IH]. Qed.

Lemma insert_second_new {A} (l : list A) (a b c : A) :
  <[S (length l) := c]> (l ++ [a; b]) = l ++ [a; c].
Proof. induction l as [ | x l IH]; simpl; [ | rewrite IH]; reflexivity. Qed.

(** X5: when a continuation throws, the callback of [then] rejects its
    promise, the spec keeps its last result, and the rejection is the next
    job of the failure channel of the spec.  With the reporter [fail] and no
    custom handler the error is reported once, the chain comes to rest, and
    the root task keeps its value, so that continuations added later are
    still called on it. *)
Theorem continuation_error_is_reported (H : Host) (this p f : nat) (v e : Val)
    (st : State) :
  _fetch (spec_of this st) = Some p ->
  fulfilled_value st p = Some v ->
  async_result (_lastResult (spec_of this st)) = false ->
  jobs st = [] ->
  (forall st', fn_body H f st' [v] = Throw e) ->
  let st1 := snd (then_ this (VFun f) st) in
  let n := length (promises st) in
  trace (run_jobs H 1 st1) = trace st ++ [EvCall f [v]] /\
  jobs (run_jobs H 1 st1) =
    [ReactionJob (VClosure (ErrorHandler (Some this))) false e (S n)] /\
  specs (run_jobs H 1 st1) = specs st /\
  (truthy (_expectError (spec_of this st)) = false -> fail_defined H = true ->
   trace (run_jobs H 2 st1) = trace st ++ [EvCall f [v]; EvFail e] /\
   jobs (run_jobs H 2 st1) = [] /\
   fulfilled_value (run_jobs H 2 st1) (S n) = Some VUndefined /\
   fulfilled_value (run_jobs H 2 st1) p = Some v).
Proof.
  intros Hfetch Hroot Hlast Hidle Hf st1 n.
  subst st1. rewrite then__on_fulfilled with (p := p) (v := v) by auto.
  cbn [snd]. rewrite Hidle. cbn [app]. fold n.
  match goal with |- context [run_jobs H 1 ?s] => set (st1 := s) end.
  assert (Hone : run_jobs H 1 st1 =
    set_jobs [ReactionJob (VClosure (ErrorHandler (Some this))) false e (S n)]
      (set_promises
         (promises st ++
          [{| pstate := Rejected e; reactions := [] |};
           {| pstate := Pending; reactions := [] |}])
         (set_trace (trace st ++ [EvCall f [v]]) st))).
  { rewrite run_jobs_S. cbn [jobs st1 set_jobs set_promises].
    change (run_jobs H 0 ?s) with s. cbn [run_job is_callable].
    rewrite then_callback_direct by exact Hlast.
    rewrite call_function, Hf.
    erewrite settle_pending; cycle 1.
    { cbn [promises set_trace set_jobs set_promises st1]. apply list_lookup_middle.
      reflexivity. }
    cbn [jobs promises set_trace set_jobs set_promises st1 map reaction_job
           onRejected derived settled app].
    unfold set_jobs, set_promises, set_trace.
    cbn [promises specs responses jobs trace expectHandlers].
    f_equal. subst n. apply insert_middle. }
  rewrite Hone. cbn [trace jobs specs set_jobs set_promises set_trace].
  split; [reflexivity | ]. split; [reflexivity | ]. split; [reflexivity | ].
  intros Hcustom Hfail.
  change 2%nat with (1 + 1)%nat. rewrite run_jobs_add, Hone.
  match goal with |- context [run_jobs H 1 ?s] => set (sB := s) end.
  assert (Htwo : run_jobs H 1 sB =
    set_jobs []
      (set_promises
         (promises st ++
          [{| pstate := Rejected e; reactions := [] |};
           {| pstate := Fulfilled VUndefined; reactions := [] |}])
         (set_trace (trace st ++ [EvCall f [v]; EvFail e]) st))).
  { rewrite run_jobs_S. subst sB. cbn [jobs set_jobs set_promises].
    change (run_jobs H 0 ?s) with s. cbn [run_job is_callable call hd].
    rewrite _fetchErrorHandler_policy.
    change (spec_of this (set_jobs ?a (set_jobs ?b (set_promises ?c (set_trace ?d st)))))
      with (spec_of this st).
    rewrite Hcustom, Hfail, resolve_data by reflexivity.
    erewrite settle_pending; cycle 1.
    { cbn [promises set_trace set_jobs set_promises]. apply lookup_second_new. }
    unfold set_jobs, set_promises, set_trace.
    cbn [promises specs responses jobs trace expectHandlers map app settled].
    rewrite <- app_assoc. f_equal. subst n. apply insert_second_new. }
  rewrite Htwo. cbn [trace jobs set_jobs set_promises set_trace].
  split; [reflexivity | ]. split; [reflexivity | ].
  unfold fulfilled_value in *. cbn [promises set_jobs set_promises set_trace].
  split.
  - subst n. rewrite lookup_second_new. reflexivity.
  - destruct (promises st !! p) as [c | ] eqn:Hp; [ | discriminate].
    rewrite (lookup_app_l_Some _ _ _ _ Hp). exact Hroot.
Qed.

Lemma continuation_error_is_reported_witness :
  let st := run_jobs Demo.host 10
              (snd (fromJSON Demo.host 0 (VNum 7) (set_specs [constructor] initial_state))) in
  let st1 := snd (then_ 0 (VFun 2) st) in
  jobs st = [] /\
  trace (run_jobs Demo.host 2 st1) = [EvCall 2 [VNum 7]; EvFail (VError "Error" "boom")].
Proof.
  intros st st1.
  destruct (continuation_error_is_reported Demo.host 0 3 2 (VNum 7)
              (VError "Error" "boom") st)
    as (_ & _ & _ & Hreported).
  - reflexivity.
  - reflexivity.
  - reflexivity.
  - vm_compute. reflexivity.
  - intros st'. reflexivity.
  - destruct Hreported as (Htrace & _); [reflexivity | reflexivity | ].
    split; [vm_compute; reflexivity | exact Htrace].
Defined.
(** ** Errors of the network *)

Lemma fetch_on_single_spec (url params : Val) (o : FrisbySpec) (defaults_request : Val) :
  get_prop (_setupDefaults o) "request" = Normal defaults_request ->
  let request := {| req_url := url; req_init := fetchParams defaults_request params |} in
  fetch 0 url params (set_specs [o] initial_state) =
    (Normal (VSpec 0),
     {| promises :=
          [{| pstate := Pending;
              reactions := [{| onFulfilled := VClosure (Fetch_decode 0);
                               onRejected := VUndefined; derived := 1 |}] |};
           {| pstate := Pending;
              reactions := [{| onFulfilled := VClosure (Fetch_store 0);
                               onRejected := VUndefined; derived := 2 |}] |};
           {| pstate := Pending;
              reactions := [{| onFulfilled := VUndefined;
                               onRejected := VClosure (ErrorHandler (Some 0%nat));
                               derived := 3 |}] |};
           {| pstate := Pending; reactions := [] |}];
        specs := [with_fetch (Some 3%nat) (with_request (Some request) o)];
        responses := [];
        jobs := [];
        trace := [EvFetch request (effective_timeout o) 0];
        expectHandlers := [] |}).
Proof.
  intros Hreq request.
  assert (Hobj : is_nullish (_setupDefaults o) = false)
    by (destruct (_setupDefaults o); simpl in *; congruence).
  unfold fetch. mstep. change (spec_of 0 (set_specs [o] initial_state)) with o.
  rewrite Hreq. mstep. mstep.
  erewrite bind_eq; cycle 1.
  { eapply on_spec_unchanged; [reflexivity | ].
    apply (timeout_getter 0 (with_request (Some request) o)). exact Hobj. }
  reflexivity.
Qed.

(** X6: when the network answers a [fetch] with an error, two microtasks
    later the error is the argument of the failure channel of the spec, and
    nothing else has happened: no response is stored and no assertion or
    continuation was called.  With the reporter [fail] and no custom handler
    the error is reported once and the loop comes to rest with the root task
    fulfilled with [undefined]; a continuation added afterwards is called on
    [undefined]. *)
Theorem network_error_is_reported (H : Host) (url params err : Val) (o : FrisbySpec)
    (defaults_request : Val) :
  get_prop (_setupDefaults o) "request" = Normal defaults_request ->
  let st0 := set_specs [o] initial_state in
  let st1 := snd ((fetch 0 url params ;;; deliver 0 (inr err)) st0) in
  let request := {| req_url := url; req_init := fetchParams defaults_request params |} in
  let started := with_fetch (Some 3%nat) (with_request (Some request) o) in
  jobs (run_jobs H 2 st1) = [ReactionJob (VClosure (ErrorHandler (Some 0%nat))) false err 3] /\
  trace (run_jobs H 2 st1) = [EvFetch request (effective_timeout o) 0] /\
  specs (run_jobs H 2 st1) = [started] /\
  responses (run_jobs H 2 st1) = [] /\
  (truthy (_expectError o) = false -> fail_defined H = true ->
   let st := run_jobs H 3 st1 in
   trace st = [EvFetch request (effective_timeout o) 0; EvFail err] /\
   jobs st = [] /\
   specs st = [started] /\
   responses st = [] /\
   fulfilled_value st 3 = Some VUndefined /\
   (async_result (_lastResult o) = false ->
    forall g,
      trace (run_jobs H 1 (snd (then_ 0 (VFun g) st))) =
        trace st ++ [EvCall g [VUndefined]])).
Proof.
  intros Hreq st0 st1 request started.
  assert (Htwo : run_jobs H 2 st1 =
    {| promises :=
         [{| pstate := Rejected err; reactions := [] |};
          {| pstate := Rejected err; reactions := [] |};
          {| pstate := Rejected err; reactions := [] |};
          {| pstate := Pending; reactions := [] |}];
       specs := [started];
       responses := [];
       jobs := [ReactionJob (VClosure (ErrorHandler (Some 0%nat))) false err 3];
       trace := [EvFetch request (effective_timeout o) 0];
       expectHandlers := [] |}).
  { subst st1 st0. unfold bind at 1.
    rewrite (fetch_on_single_spec url params o defaults_request Hreq).
    unfold deliver. subst started request.
    set (request := {| req_url := url; req_init := _ |}). clearbody request.
    generalize (effective_timeout o). intros tmout. clear Hreq.
    destruct H as [fnb fd ed str par mrg], o as [f d rq rs es ee t sd lr].
    eval_state. next_job. eval_state. next_job. eval_state.
    reflexivity. }
  rewrite Htwo. cbn [jobs trace specs responses].
  do 4 (split; [reflexivity | ]).
  intros Hcustom Hfail. set (st := run_jobs H 3 st1).
  assert (Hthree : st =
    {| promises :=
         [{| pstate := Rejected err; reactions := [] |};
          {| pstate := Rejected err; reactions := [] |};
          {| pstate := Rejected err; reactions := [] |};
          {| pstate := Fulfilled VUndefined; reactions := [] |}];
       specs := [started];
       responses := [];
       jobs := [];
       trace := [EvFetch request (effective_timeout o) 0; EvFail err];
       expectHandlers := [] |}).
  { subst st. change 3%nat with (2 + 1)%nat. rewrite run_jobs_add, Htwo.
    rewrite run_jobs_S. cbn [jobs]. change (run_jobs H 0 ?s) with s.
    cbn [run_job is_callable call hd]. rewrite _fetchErrorHandler_policy.
    change (_expectError (spec_of 0 _)) with (_expectError o).
    rewrite Hcustom, Hfail. reflexivity. }
  rewrite Hthree. cbn [jobs trace specs responses].
  do 5 (split; [reflexivity | ]).
  intros Hlast g.
  match goal with |- context [then_ 0 (VFun g) ?s] => set (sC := s) end.
  rewrite then__on_fulfilled with (p := 3%nat) (v := VUndefined) by reflexivity.
  cbn [snd]. rewrite run_jobs_S. cbn [jobs set_jobs set_promises sC app].
  change (run_jobs H 0 ?s) with s.
  rewrite run_job_calls_continuation; [reflexivity | ].
  exact Hlast.
Qed.

Lemma network_error_is_reported_witness :
  let err := VError "FetchError" "network timeout" in
  let st1 :=
    snd ((fetch 0 (VStr "/users") VUndefined ;;; deliver 0 (inr err))
           (set_specs [constructor] initial_state)) in
  trace (run_jobs Demo.host 3 st1) =
    [EvFetch {| req_url := VStr "/users"; req_init := [] |} (VNum 5000) 0; EvFail err] /\
  jobs (run_jobs Demo.host 3 st1) = [].
Proof.
  intros err st1.
  destruct (network_error_is_reported Demo.host (VStr "/users") VUndefined err
              constructor VUndefined)
    as (_ & _ & _ & _ & Hreported).
  - reflexivity.
  - destruct Hreported as (Htrace & Hjobs & _); [reflexivity | reflexivity | ].
    split; [exact Htrace | exact Hjobs].
Defined.
(** X7: when the response declares JSON and its payload cannot be decoded,
    the response is stored on the spec without a body, and after four
    microtasks the decoding error is the argument of the failure channel; no
    assertion has been called.  With the reporter [fail] and no custom
    handler the error is reported once and the loop comes to rest. *)
Theorem undecodable_body_is_reported (H : Host) (url params : Val) (resp : Response)
    (o : FrisbySpec) (defaults_request : Val) :
  get_prop (_setupDefaults o) "request" = Normal defaults_request ->
  decoded_payload H resp = None ->
  let st0 := set_specs [o] initial_state in
  let st1 := snd ((fetch 0 url params ;;; deliver 0 (inl resp)) st0) in
  let request := {| req_url := url; req_init := fetchParams defaults_request params |} in
  let started :=
    with_response (VResponse 0)
      (with_fetch (Some 3%nat) (with_request (Some request) o)) in
  declares_json (res_headers resp) = true /\
  jobs (run_jobs H 4 st1) =
    [ReactionJob (VClosure (ErrorHandler (Some 0%nat))) false invalid_json 3] /\
  trace (run_jobs H 4 st1) = [EvFetch request (effective_timeout o) 0] /\
  specs (run_jobs H 4 st1) = [started] /\
  responses (run_jobs H 4 st1) = [resp] /\
  (truthy (_expectError o) = false -> fail_defined H = true ->
   trace (run_jobs H 5 st1) =
     [EvFetch request (effective_timeout o) 0; EvFail invalid_json] /\
   jobs (run_jobs H 5 st1) = [] /\
   specs (run_jobs H 5 st1) = [started] /\
   responses (run_jobs H 5 st1) = [resp]).
Proof.
  intros Hreq Hpayload st0 st1 request started.
  assert (Hjson : declares_json (res_headers resp) = true).
  { unfold decoded_payload in Hpayload.
    destruct (declares_json (res_headers resp)); [reflexivity | discriminate]. }
  assert (Hparse : JSON_parse H (res_body resp) = None).
  { unfold decoded_payload in Hpayload. rewrite Hjson in Hpayload. exact Hpayload. }
  split; [exact Hjson | ].
  assert (Hfour : run_jobs H 4 st1 =
    {| promises :=
         [{| pstate := Fulfilled (VResponse 0); reactions := [] |};
          {| pstate := Rejected invalid_json; reactions := [] |};
          {| pstate := Rejected invalid_json; reactions := [] |};
          {| pstate := Pending; reactions := [] |};
          {| pstate := Rejected invalid_json; reactions := [] |};
          {| pstate := Fulfilled VUndefined; reactions := [] |}];
       specs := [started];
       responses := [resp];
       jobs := [ReactionJob (VClosure (ErrorHandler (Some 0%nat))) false invalid_json 3];
       trace := [EvFetch request (effective_timeout o) 0];
       expectHandlers := [] |}).
  { subst st1 st0. unfold bind at 1.
    rewrite (fetch_on_single_spec url params o defaults_request Hreq).
    unfold deliver. subst started request.
    set (request := {| req_url := url; req_init := _ |}). clearbody request.
    generalize (effective_timeout o). intros tmout. clear Hreq Hpayload.
    destruct H as [fnb fd ed str par mrg], o as [f d rq rs es ee t sd lr],
      resp as [u s stt hs b sz tmo bd].
    simpl in Hjson, Hparse.
    match goal with |- context [run_jobs ?h 4 ?s] =>
      let s' := eval cbn in s in change s with s' end.
    eval_state. next_job. rewrite Hjson.
    unfold response_json; cbn. rewrite Hparse; cbn.
    unfold resolve; cbn. eval_state.
    next_job. eval_state.
    next_job. rewrite resolve_data by reflexivity. eval_state.
    next_job. eval_state.
    reflexivity. }
  rewrite Hfour. cbn [jobs trace specs responses].
  do 4 (split; [reflexivity | ]).
  intros Hcustom Hfail.
  change 5%nat with (4 + 1)%nat. rewrite run_jobs_add, Hfour.
  rewrite run_jobs_S. cbn [jobs]. change (run_jobs H 0 ?s) with s.
  cbn [run_job is_callable call hd]. rewrite _fetchErrorHandler_policy.
  change (_expectError (spec_of 0 _)) with (_expectError o).
  rewrite Hcustom, Hfail. repeat split.
Qed.

Lemma undecodable_body_is_reported_witness :
  let resp := set_body VUndefined Fixture.users_response in
  let st1 :=
    snd ((fetch 0 (VStr "/users") VUndefined ;;; deliver 0 (inl resp))
           (set_specs [constructor] initial_state)) in
  decoded_payload Scenario.undecodable_host resp = None /\
  trace (run_jobs Scenario.undecodable_host 5 st1) =
    [EvFetch {| req_url := VStr "/users"; req_init := [] |} (VNum 5000) 0;
     EvFail invalid_json].
Proof.
  intros resp st1.
  destruct (undecodable_body_is_reported Scenario.undecodable_host (VStr "/users")
              VUndefined resp constructor VUndefined)
    as (_ & _ & _ & _ & _ & Hreported).
  - reflexivity.
  - reflexivity.
  - destruct Hreported as (Htrace & _); [reflexivity | reflexivity | ].
    split; [reflexivity | exact Htrace].
Defined.
(** ** The order of continuations and assertions *)

Lemma run_job_runs_assertion (H : Host) (this h : nat) (args : list Val) (pass : bool)
    (rh payload : Val) (tgt : nat) (st : State) :
  async_result (_lastResult (spec_of this st)) = false ->
  _expects (spec_of this st) = [VClosure (ExpectRunner this (VFun h) args pass)] ->
  (forall st', fn_body H h st' (_response (spec_of this st) :: args) = Normal rh) ->
  trace (run_job H
           (ReactionJob (VClosure (ThenCb this (VClosure (RunExpects this)))) true payload tgt)
           st) =
    trace st ++ [EvCall h (_response (spec_of this st) :: args)].
Proof.
  intros Hlast Hes Hh. cbn [run_job is_callable].
  rewrite then_callback_direct by exact Hlast.
  assert (Hcall : call H (VClosure (RunExpects this)) [payload] st =
            (Normal VUndefined,
             set_trace (trace st ++ [EvCall h (_response (spec_of this st) :: args)]) st)).
  { cbn [call]. rewrite bind_gets, Hes. cbn [run_expects_loop].
    rewrite !bind_assoc, bind_gets. cbn [call_expect]. unfold expect_runner.
    unfold try_catch. cbn [call_prim].
    unfold bind, emit, modify, ret. cbv beta. rewrite Hh. reflexivity. }
  rewrite Hcall. cbn [truthy]. rewrite trace_resolve. reflexivity.
Qed.

(** X8: a continuation given to [then] before the response arrives is called
    before the assertions.  When the body has been stored, the callback of
    the continuation stands in the queue ahead of the callback that runs the
    assertions; the continuation is called on the payload, and the assertion
    handler afterwards on the response and its arguments. *)
Theorem continuation_runs_before_assertions (H : Host) (url params : Val)
    (resp : Response) (payload : Val) (o : FrisbySpec) (defaults_request : Val)
    (f h : nat) (args : list Val) (r rh : Val) :
  get_prop (_setupDefaults o) "request" = Normal defaults_request ->
  decoded_payload H resp = Some payload ->
  is_thenable payload = false ->
  _expects o = [] ->
  async_result (_lastResult o) = false ->
  (forall st', fn_body H f st' [payload] = Normal r) ->
  async_result r = false ->
  (forall st', fn_body H h st' (VResponse 0 :: args) = Normal rh) ->
  let st0 := set_specs [o] initial_state in
  let st1 :=
    snd ((fetch 0 url params ;;;
          on_spec 0 (expect [] 0 (VFun h) args) ;;;
          then_ 0 (VFun f) ;;;
          deliver 0 (inl resp)) st0) in
  let request := {| req_url := url; req_init := fetchParams defaults_request params |} in
  jobs (run_jobs H 5 st1) =
    [ReactionJob (VClosure (ThenCb 0 (VFun f))) true payload 4;
     ReactionJob (VClosure (ThenCb 0 (VClosure (RunExpects 0)))) true payload 8] /\
  trace (run_jobs H 5 st1) = [EvFetch request (effective_timeout o) 0] /\
  trace (run_jobs H 7 st1) =
    [EvFetch request (effective_timeout o) 0;
     EvCall f [payload];
     EvCall h (VResponse 0 :: args)].
Proof.
  intros Hreq Hpayload Hdata Hes Hlast Hf Hr Hh st0 st1 request.
  assert (Hfive : run_jobs H 5 st1 =
    {| promises :=
         [{| pstate := Fulfilled (VResponse 0); reactions := [] |};
          {| pstate := Fulfilled payload; reactions := [] |};
          {| pstate := Fulfilled payload; reactions := [] |};
          {| pstate := Fulfilled payload; reactions := [] |};
          {| pstate := Pending;
             reactions := [{| onFulfilled := VUndefined;
                              onRejected := VClosure (ErrorHandler (Some 0%nat));
                              derived := 5 |}] |};
          {| pstate := Pending; reactions := [] |};
          {| pstate := Fulfilled payload; reactions := [] |};
          {| pstate := Fulfilled VUndefined; reactions := [] |};
          {| pstate := Pending;
             reactions := [{| onFulfilled := VUndefined;
                              onRejected := VClosure (ErrorHandler (Some 0%nat));
                              derived := 9 |}] |};
          {| pstate := Pending; reactions := [] |}];
       specs :=
         [with_response (VResponse 0)
            (with_expects [VClosure (ExpectRunner 0 (VFun h) args true)]
               (with_fetch (Some 3%nat) (with_request (Some request) o)))];
       responses := [set_body payload resp];
       jobs :=
         [ReactionJob (VClosure (ThenCb 0 (VFun f))) true payload 4;
          ReactionJob (VClosure (ThenCb 0 (VClosure (RunExpects 0)))) true payload 8];
       trace := [EvFetch request (effective_timeout o) 0];
       expectHandlers := [] |}).
  { subst st1 st0. unfold bind at 1.
    rewrite (fetch_on_single_spec url params o defaults_request Hreq).
    unfold deliver. subst request.
    set (request := {| req_url := url; req_init := _ |}). clearbody request.
    generalize (effective_timeout o). intros tmout.
    unfold decoded_payload in Hpayload. clear Hreq Hf Hh Hlast.
    destruct H as [fnb fd ed str par mrg], o as [f0 d rq rs es ee t sd lr],
      resp as [u s stt hs b sz tmo bd].
    simpl in Hpayload, Hes. subst es.
    eval_state. next_job.
    destruct (declares_json hs).
    - unfold response_json; cbn. rewrite Hpayload; cbn.
      unfold resolve; cbn. eval_state.
      next_job. eval_state.
      next_job. rewrite (resolve_data _ payload) by assumption. eval_state.
      next_job. rewrite (resolve_data _ payload) by assumption. eval_state.
      next_job. rewrite (resolve_data _ payload) by assumption. eval_state.
      reflexivity.
    - injection Hpayload as <-.
      cbn. unfold resolve; cbn. eval_state.
      next_job. eval_state.
      next_job. eval_state.
      next_job. eval_state.
      next_job. eval_state.
      reflexivity. }
  rewrite Hfive. cbn [jobs trace].
  split; [reflexivity | ]. split; [reflexivity | ].
  change 7%nat with (5 + 2)%nat. rewrite run_jobs_add, Hfive.
  rewrite run_jobs_S. cbn [jobs]. cbn [run_job is_callable].
  rewrite then_callback_direct by exact Hlast.
  rewrite call_function, Hf.
  match goal with |- context [resolve 4 ?x ?s] =>
    destruct (jobs_resolve 4 x s) as [more Hmore];
    pose proof (specs_resolve 4 x s) as Hspecs;
    pose proof (trace_resolve 4 x s) as Htrace;
    set (sF := resolve 4 x s) in *
  end.
  cbn [jobs trace specs set_jobs set_specs set_trace app] in Hmore, Hspecs, Htrace.
  rewrite run_jobs_S, Hmore. cbn [app]. change (run_jobs H 0 ?s) with s.
  assert (Hspec : spec_of 0 (set_jobs more sF) =
            with_lastResult r
              (with_response (VResponse 0)
                 (with_expects [VClosure (ExpectRunner 0 (VFun h) args true)]
                    (with_fetch (Some 3%nat) (with_request (Some request) o))))).
  { unfold spec_of. cbn [specs set_jobs]. rewrite Hspecs. reflexivity. }
  rewrite run_job_runs_assertion with (h := h) (args := args) (pass := true) (rh := rh).
  - rewrite Hspec. cbn [trace set_jobs]. rewrite Htrace. reflexivity.
  - rewrite Hspec. exact Hr.
  - rewrite Hspec. reflexivity.
  - intros st'. rewrite Hspec. apply Hh.
Qed.

Lemma continuation_runs_before_assertions_witness :
  let st1 :=
    snd ((fetch 0 (VStr "/users") VUndefined ;;;
          on_spec 0 (expect [] 0 (VFun 1) []) ;;;
          then_ 0 (VFun 0) ;;;
          deliver 0 (inl Fixture.users_response))
           (set_specs [constructor] initial_state)) in
  let payload := VArr [VNum 1; VNum 2] in
  decoded_payload Demo.host Fixture.users_response = Some payload /\
  trace (run_jobs Demo.host 7 st1) =
    [EvFetch {| req_url := VStr "/users"; req_init := [] |} (VNum 5000) 0;
     EvCall 0 [payload];
     EvCall 1 [VResponse 0]].
Proof.
  intros st1 payload.
  destruct (continuation_runs_before_assertions Demo.host (VStr "/users") VUndefined
              Fixture.users_response payload constructor VUndefined 0 1 []
              VUndefined (VResponse 0))
    as (_ & _ & Htrace).
  - reflexivity.
  - reflexivity.
  - reflexivity.
  - reflexivity.
  - reflexivity.
  - intros st'. reflexivity.
  - reflexivity.
  - intros st'. reflexivity.
  - split; [reflexivity | exact Htrace].
Defined.
(** ** The verbs *)

(** X9: [get] adds nothing to the shared request defaults, so the method of
    the request is the one of the defaults, if any; [del] sends the method
    [delete] whatever the defaults say, and takes every other key from
    them.  Each sends one request, with the timeout in effect. *)
Theorem get_and_del_requests (this : nat) (url : Val) (st : State) (o : FrisbySpec)
    (defaults_request : Val) :
  specs st !! this = Some o ->
  get_prop (_setupDefaults o) "request" = Normal defaults_request ->
  distinct_keys (own_props defaults_request) ->
  (exists st' cfg,
     get this url st = (Normal (VSpec this), st') /\
     _request (spec_of this st') = Some {| req_url := url; req_init := cfg |} /\
     (forall k, obj_lookup k cfg = obj_lookup k (own_props defaults_request)) /\
     trace st' =
       trace st ++
       [EvFetch {| req_url := url; req_init := cfg |} (effective_timeout o)
          (length (promises st))]) /\
  (exists st' cfg,
     del this url st = (Normal (VSpec this), st') /\
     _request (spec_of this st') = Some {| req_url := url; req_init := cfg |} /\
     obj_lookup "method" cfg = Some (VStr "delete") /\
     (forall k, String.eqb k "method" = false ->
        obj_lookup k cfg = obj_lookup k (own_props defaults_request)) /\
     trace st' =
       trace st ++
       [EvFetch {| req_url := url; req_init := cfg |} (effective_timeout o)
          (length (promises st))]).
Proof.
  intros Hthis Hreq Hdefaults. split.
  - destruct (fetch_request this url VUndefined st o defaults_request Hthis Hreq)
      as (st' & Hfetch & Hspec & Htrace).
    exists st', (fetchParams defaults_request VUndefined).
    split; [exact Hfetch | ]. split; [rewrite Hspec; reflexivity | ].
    split; [ | exact Htrace].
    intros k. rewrite fetchParams_lookup by (assumption || apply NoDup_nil_2).
    reflexivity.
  - set (params := VObj [("method", VStr "delete")]).
    assert (Hparams : distinct_keys (own_props params)).
    { apply NoDup_singleton. }
    destruct (fetch_request this url params st o defaults_request Hthis Hreq)
      as (st' & Hfetch & Hspec & Htrace).
    exists st', (fetchParams defaults_request params).
    split; [exact Hfetch | ]. split; [rewrite Hspec; reflexivity | ].
    split; [ | split; [ | exact Htrace]].
    + rewrite fetchParams_lookup by assumption. reflexivity.
    + intros k Hk. rewrite fetchParams_lookup by assumption.
      cbn [params own_props obj_lookup]. rewrite Hk. reflexivity.
Qed.

Lemma get_and_del_requests_witness :
  let o := with_setupDefaults (VObj [("request", VObj [("method", VStr "PUT")])]) constructor in
  let st := set_specs [o] initial_state in
  _request (spec_of 0 (snd (get 0 (VStr "/users") st))) =
    Some {| req_url := VStr "/users"; req_init := [("method", VStr "PUT")] |} /\
  exists st' cfg,
    del 0 (VStr "/users") st = (Normal (VSpec 0), st') /\
    _request (spec_of 0 st') = Some {| req_url := VStr "/users"; req_init := cfg |} /\
    obj_lookup "method" cfg = Some (VStr "delete").
Proof.
  intros o st.
  destruct (get_and_del_requests 0 (VStr "/users") st o (VObj [("method", VStr "PUT")]))
    as (_ & st' & cfg & Hdel & Hrequest & Hmethod & _).
  - reflexivity.
  - reflexivity.
  - apply NoDup_singleton.
  - split; [reflexivity | ].
    exists st', cfg. split; [exact Hdel | split; [exact Hrequest | exact Hmethod]].
Defined.

(** X10: what [patch], [post] and [put] send as the body.  A [body] that is
    an object, an array or a function is replaced by its JSON text, any
    other [body] is sent as it is.  Without [body] and without [headers]
    the parameters as a whole become the JSON body, while they are still
    copied into the configuration as well; with [headers] but no [body] no
    body is set, and the one of the shared defaults, if any, stays. *)
Theorem request_body_is_encoded (H : Host) (this : nat) (method : string) (url : Val)
    (props : list (string * Val)) (st : State) (o : FrisbySpec)
    (defaults_request : Val) :
  specs st !! this = Some o ->
  get_prop (_setupDefaults o) "request" = Normal defaults_request ->
  distinct_keys (own_props defaults_request) ->
  distinct_keys props ->
  exists st' cfg,
    _requestWithBody H this method url (VObj props) st = (Normal (VSpec this), st') /\
    _request (spec_of this st') = Some {| req_url := url; req_init := cfg |} /\
    obj_lookup "body" cfg =
      match obj_lookup "body" props with
      | Some b => Some (if isObject b then stringify H b else b)
      | None =>
          match obj_lookup "headers" props with
          | None | Some VUndefined => Some (stringify H (VObj props))
          | Some _ => obj_lookup "body" (own_props defaults_request)
          end
      end /\
    (forall k v, String.eqb k "body" = false -> obj_lookup k props = Some v ->
       obj_lookup k cfg = Some v).
Proof.
  intros Hthis Hreq Hdefaults Hprops.
  set (params := VObj props).
  destruct (fetch_request this url (VObj (postParams H method params)) st o
              defaults_request Hthis Hreq)
    as (st' & Hfetch & Hspec & _).
  exists st', (fetchParams defaults_request (VObj (postParams H method params))).
  split; [exact Hfetch | ]. split; [rewrite Hspec; reflexivity | ].
  assert (Henc : distinct_keys (own_props (encode_body H params)))
    by (apply distinct_keys_encode_body; exact Hprops).
  assert (Hlookup : forall k,
    obj_lookup k (fetchParams defaults_request (VObj (postParams H method params))) =
      match obj_lookup k (own_props (encode_body H params)) with
      | Some v => Some v
      | None =>
          match obj_lookup k (method_defaults H method params) with
          | Some v => Some v
          | None => obj_lookup k (own_props defaults_request)
          end
      end).
  { intros k. rewrite fetchParams_lookup
      by (try assumption; apply distinct_keys_postParams).
    cbn [own_props]. rewrite postParams_lookup by exact Henc.
    destruct (obj_lookup k (own_props (encode_body H params))); [reflexivity | ].
    destruct (obj_lookup k (method_defaults H method params)); reflexivity. }
  split.
  - rewrite Hlookup. subst params.
    unfold method_defaults, encode_body, prop_undefined. cbv iota.
    destruct (obj_lookup "body" props) as [b | ] eqn:Hbody.
    + destruct (isObject b).
      * cbn [own_props]. rewrite obj_lookup_obj_set. reflexivity.
      * cbn [own_props]. rewrite Hbody. reflexivity.
    + cbn [own_props get_prop truthy andb is_undefined]. rewrite Hbody.
      cbn [is_undefined andb].
      destruct (obj_lookup "headers" props) as [[] | ]; reflexivity.
  - intros k v Hk Hv. rewrite Hlookup.
    rewrite encode_body_other_key by exact Hk.
    subst params. cbn [own_props]. rewrite Hv. reflexivity.
Qed.

Lemma request_body_is_encoded_witness :
  let st := snd (new_FrisbySpec initial_state) in
  exists st' cfg,
    _requestWithBody Demo.host 0 "POST" (VStr "/users") (VObj [("name", VStr "a")]) st =
      (Normal (VSpec 0), st') /\
    _request (spec_of 0 st') = Some {| req_url := VStr "/users"; req_init := cfg |} /\
    obj_lookup "body" cfg = Some (stringify Demo.host (VObj [("name", VStr "a")])) /\
    obj_lookup "name" cfg = Some (VStr "a").
Proof.
  intros st.
  destruct (request_body_is_encoded Demo.host 0 "POST" (VStr "/users")
              [("name", VStr "a")] st constructor VUndefined)
    as (st' & cfg & Hpost & Hrequest & Hbody & Hkeys).
  - reflexivity.
  - reflexivity.
  - apply NoDup_nil_2.
  - apply NoDup_singleton.
  - exists st', cfg. split; [exact Hpost | split; [exact Hrequest | split]].
    + exact Hbody.
    + apply Hkeys; reflexivity.
Defined.
(** ** The registry of assertion handlers *)



(** ** The loop over the assertions *)

Lemma call_prim_events (H : Host) (h : Val) (args : list Val) (st : State) :
  trace (snd (call_prim H h args st)) =
    trace st ++ match h with VFun f => [EvCall f args] | _ => [] end.
Proof.
  destruct h; cbn [call_prim]; try (symmetry; apply app_nil_r).
  - reflexivity.
  - unfold bind, modify, ret. cbn [snd]. rewrite trace_resolve. symmetry. apply app_nil_r.
  - unfold bind, modify, ret. cbn [snd]. rewrite trace_settle. symmetry. apply app_nil_r.
Qed.

Lemma expect_runner_must_fail (H : Host) (s : nat) (h : Val) (args : list Val)
    (response : Val) (st : State) :
  fst (expect_runner H s h args false response st) = Normal VUndefined /\
  trace (snd (expect_runner H s h args false response st)) =
    trace st ++ handler_call response (VClosure (ExpectRunner s h args false)).
Proof.
  unfold expect_runner, try_catch. rewrite bind_unfold.
  pose proof (call_prim_events H h (response :: args) st) as Hev.
  destruct (call_prim H h (response :: args) st) as [[r | e] st1]; cbn [snd] in Hev;
    cbn [fst snd ret handler_call]; (split; [reflexivity | ]);
    rewrite Hev; destruct h; reflexivity.
Qed.

(** X12: assertions that must fail never reach the failure channel.  A loop
    over elements that [expectNot] stored completes normally, and all it
    adds to the trace are the calls of the handlers, each on the response
    of the spec and its arguments, in the order of registration; a handler
    that throws is passed over in silence. *)
Theorem refuted_expectations_never_report (H : Host) (this : nat) (es : list Val)
    (st : State) :
  forallb must_fail es = true ->
  fst (run_expects_loop H this es st) = Normal tt /\
  trace (snd (run_expects_loop H this es st)) =
    trace st ++ flat_map (handler_call (_response (spec_of this st))) es /\
  reports (trace (snd (run_expects_loop H this es st))) = reports (trace st).
Proof.
  intros Hes.
  cut (fst (run_expects_loop H this es st) = Normal tt /\
       trace (snd (run_expects_loop H this es st)) =
         trace st ++ flat_map (handler_call (_response (spec_of this st))) es).
  { intros (Hfst & Htrace). split; [exact Hfst | split; [exact Htrace | ]].
    rewrite Htrace. unfold reports. rewrite List.filter_app.
    match goal with |- _ ++ ?l = _ => assert (Hnil : l = []) end.
    { clear. induction es as [ | e es IH]; [reflexivity | ].
      cbn [flat_map]. rewrite List.filter_app, IH, app_nil_r.
      destruct e as [ | | | | | | | | | | | | | | [ | | | | | | | | | s [] a p]];
        reflexivity. }
    rewrite Hnil. apply app_nil_r. }
  revert st. induction es as [ | e rest IH]; intros st.
  - cbn [run_expects_loop flat_map ret fst snd]. rewrite app_nil_r. split; reflexivity.
  - cbn [forallb] in Hes. apply andb_prop in Hes. destruct Hes as [He Hrest].
    destruct e as [ | | | | | | | | | | | | | | [ | | | | | | | | | s h args pass]];
      try discriminate.
    destruct pass; [discriminate | ].
    cbn [run_expects_loop]. rewrite bind_gets. cbn [call_expect].
    destruct (expect_runner_must_fail H s h args (_response (spec_of this st)) st)
      as (Hfst & Htrace).
    pose proof (keeps_expect_runner specs (fun _ _ => eq_refl) (fun _ _ => eq_refl)
                  (fun _ _ => eq_refl) H s h args false (_response (spec_of this st)) st)
      as Hspecs.
    rewrite bind_unfold.
    destruct (expect_runner H s h args false (_response (spec_of this st)) st)
      as [c st1].
    cbn [fst snd] in Hfst, Htrace, Hspecs. subst c.
    destruct (IH Hrest st1) as (IHfst & IHtrace).
    split; [exact IHfst | ].
    rewrite IHtrace, Htrace. cbn [flat_map]. rewrite <- app_assoc.
    unfold spec_of. rewrite Hspecs. reflexivity.
Qed.

Lemma refuted_expectations_never_report_witness :
  let es := [VClosure (ExpectRunner 0 (VFun 2) [] false);
             VClosure (ExpectRunner 0 (VFun 0) [VNum 1] false)] in
  let st := snd (new_FrisbySpec initial_state) in
  forallb must_fail es = true /\
  trace (snd (run_expects_loop Demo.host 0 es st)) =
    [EvCall 2 [VUndefined]; EvCall 0 [VUndefined; VNum 1]].
Proof.
  intros es st.
  destruct (refuted_expectations_never_report Demo.host 0 es st) as (_ & Htrace & _).
  - reflexivity.
  - split; [reflexivity | exact Htrace].
Defined.
Lemma specs_call_prim (H : Host) (h : Val) (args : list Val) (st : State) :
  specs (snd (call_prim H h args st)) = specs st.
Proof.
  apply (keeps_call_prim specs (fun _ _ => eq_refl) (fun _ _ => eq_refl)
           (fun _ _ => eq_refl) H h args st).
Qed.

Lemma calls_handler_call (response e : Val) :
  calls (handler_call response e) = handler_call response e /\
  reports (handler_call response e) = [].
Proof.
  destruct e as [ | | | | | | | | | | | | | | [ | | | | | | | | | s [] a p]];
    split; reflexivity.
Qed.

Lemma expect_runner_reported (H : Host) (s : nat) (h : Val) (args : list Val)
    (pass : bool) (response : Val) (st : State) :
  fail_defined H = true ->
  truthy (_expectError (spec_of s st)) = false ->
  fst (expect_runner H s h args pass response st) = Normal VUndefined /\
  exists more,
    trace (snd (expect_runner H s h args pass response st)) =
      trace st ++ handler_call response (VClosure (ExpectRunner s h args pass)) ++ more /\
    calls more = [] /\
    (length (reports more) <= 1)%nat.
Proof.
  intros Hfail Hcustom.
  unfold expect_runner, try_catch. rewrite bind_unfold.
  pose proof (call_prim_events H h (response :: args) st) as Hev.
  pose proof (specs_call_prim H h (response :: args) st) as Hspecs.
  destruct (call_prim H h (response :: args) st) as [[r | e] st1];
    cbn [snd] in Hev, Hspecs.
  - cbn [fst snd ret]. split; [reflexivity | ].
    exists []. rewrite Hev, app_nil_r. cbn [handler_call length reports List.filter].
    split; [destruct h; reflexivity | split; [reflexivity | lia]].
  - destruct pass.
    + rewrite bind_unfold, _fetchErrorHandler_policy.
      unfold spec_of in Hcustom |- *. rewrite Hspecs, Hcustom, Hfail.
      cbn [fst snd ret trace set_trace]. split; [reflexivity | ].
      exists [EvFail e]. rewrite Hev, <- app_assoc.
      split; [destruct h; reflexivity | split; [reflexivity | cbn; lia]].
    + cbn [fst snd ret]. split; [reflexivity | ].
      exists []. rewrite Hev, app_nil_r.
      split; [destruct h; reflexivity | split; [reflexivity | cbn; lia]].
Qed.

(** X13: with the reporter [fail] and no custom error handler, an assertion
    that fails does not keep the later ones from running.  The loop over
    the assertions of a spec completes normally, calls every handler once,
    on the response of the spec and its arguments and in the order of
    registration, and reports at most one failure for each assertion. *)
Theorem reported_failure_does_not_stop_the_loop (H : Host) (this : nat) (es : list Val)
    (st : State) :
  fail_defined H = true ->
  truthy (_expectError (spec_of this st)) = false ->
  forallb (registered_by this) es = true ->
  fst (run_expects_loop H this es st) = Normal tt /\
  calls (trace (snd (run_expects_loop H this es st))) =
    calls (trace st) ++ flat_map (handler_call (_response (spec_of this st))) es /\
  (length (reports (trace (snd (run_expects_loop H this es st)))) <=
     length (reports (trace st)) + length es)%nat.
Proof.
  intros Hfail. revert st. induction es as [ | e rest IH]; intros st Hcustom Hes.
  - cbn [run_expects_loop flat_map ret fst snd length]. rewrite app_nil_r.
    split; [reflexivity | split; [reflexivity | lia]].
  - cbn [forallb] in Hes. apply andb_prop in Hes. destruct Hes as [He Hrest].
    destruct e as [ | | | | | | | | | | | | | | [ | | | | | | | | | s h args pass]];
      try discriminate.
    cbn [registered_by] in He. apply Nat.eqb_eq in He. subst s.
    cbn [run_expects_loop]. rewrite bind_gets. cbn [call_expect].
    destruct (expect_runner_reported H this h args pass (_response (spec_of this st)) st
                Hfail Hcustom)
      as (Hfst & more & Htrace & Hcalls & Hreports).
    pose proof (keeps_expect_runner specs (fun _ _ => eq_refl) (fun _ _ => eq_refl)
                  (fun _ _ => eq_refl) H this h args pass (_response (spec_of this st)) st)
      as Hspecs.
    rewrite bind_unfold.
    destruct (expect_runner H this h args pass (_response (spec_of this st)) st)
      as [c st1].
    cbn [fst snd] in Hfst, Htrace, Hspecs. subst c.
    assert (Hspec : spec_of this st1 = spec_of this st)
      by (unfold spec_of; rewrite Hspecs; reflexivity).
    destruct (IH st1) as (IHfst & IHcalls & IHreports);
      [rewrite Hspec; exact Hcustom | exact Hrest | ].
    destruct (calls_handler_call (_response (spec_of this st))
                (VClosure (ExpectRunner this h args pass))) as (Hc & Hr).
    split; [exact IHfst | split].
    + rewrite IHcalls, Htrace, Hspec. cbn [flat_map].
      unfold calls in *. rewrite !List.filter_app, Hc, Hcalls, app_nil_r, <- app_assoc.
      reflexivity.
    + rewrite Htrace in IHreports. unfold reports in *.
      rewrite !List.filter_app, Hr, !length_app in IHreports.
      cbn [length app] in IHreports |- *. lia.
Qed.

Lemma reported_failure_does_not_stop_the_loop_witness :
  let es := [VClosure (ExpectRunner 0 (VFun 2) [] true);
             VClosure (ExpectRunner 0 (VFun 0) [VNum 1] true)] in
  let st := snd (new_FrisbySpec initial_state) in
  forallb (registered_by 0) es = true /\
  calls (trace (snd (run_expects_loop Demo.host 0 es st))) =
    [EvCall 2 [VUndefined]; EvCall 0 [VUndefined; VNum 1]].
Proof.
  intros es st.
  destruct (reported_failure_does_not_stop_the_loop Demo.host 0 es st) as (_ & Hcalls & _).
  - reflexivity.
  - reflexivity.
  - reflexivity.
  - split; [reflexivity | exact Hcalls].
Defined.

(** X14: without a reporter, that is with neither [fail] nor [expect] in
    scope and no custom error handler, the failure channel throws the error
    again, and the first assertion of the must-pass kind whose handler throws
    ends the loop with that error: the assertions after it are not run. *)
Theorem unreported_failure_stops_the_loop (H : Host) (this : nat) (h : Val)
    (args rest : list Val) (e : Val) (st st1 : State) :
  fail_defined H = false ->
  expect_defined H = false ->
  truthy (_expectError (spec_of this st)) = false ->
  call_prim H h (_response (spec_of this st) :: args) st = (Throw e, st1) ->
  run_expects_loop H this (VClosure (ExpectRunner this h args true) :: rest) st =
    (Throw e, st1).
Proof.
  intros Hfail Hexpect Hcustom Hcall.
  pose proof (specs_call_prim H h (_response (spec_of this st) :: args) st) as Hspecs.
  rewrite Hcall in Hspecs. cbn [snd] in Hspecs.
  cbn [run_expects_loop]. rewrite bind_gets. cbn [call_expect].
  apply bind_unfold_throw.
  unfold expect_runner, try_catch. rewrite bind_unfold, Hcall.
  apply bind_unfold_throw.
  rewrite _fetchErrorHandler_policy.
  unfold spec_of in Hcustom |- *. rewrite Hspecs, Hcustom, Hfail, Hexpect.
  reflexivity.
Qed.

Lemma unreported_failure_stops_the_loop_witness :
  let quiet :=
    {| fn_body := Demo.demo_fn; fail_defined := false; expect_defined := false;
       JSON_stringify := Demo.stringify; JSON_parse := Demo.parse;
       merge := Demo.deep_merge |} in
  let st := snd (new_FrisbySpec initial_state) in
  run_expects_loop quiet 0
    [VClosure (ExpectRunner 0 (VFun 2) [] true);
     VClosure (ExpectRunner 0 (VFun 0) [] true)] st =
    (Throw (VError "Error" "boom"), set_trace [EvCall 2 [VUndefined]] st).
Proof.
  intros quiet st.
  apply (unreported_failure_stops_the_loop quiet 0 (VFun 2) [] _ _ st); reflexivity.
Defined.
(** ** Requests *)

Lemma keeps_fetches_new_response (r : Response) : keeps_fetches (new_response r).
Proof. intros st. reflexivity. Qed.

Lemma keeps_fetches_fromJSON (H : Host) (this : nat) (json : Val) :
  keeps_fetches (fromJSON H this json).
Proof.
  unfold fromJSON, promise_catch. destruct (JSON_stringify H json); [ | auto with fetches].
  repeat (apply keeps_fetches_bind; [auto using keeps_fetches_new_response with fetches | intros]).
  apply keeps_fetches_ret.
Qed.

Lemma keeps_fetches_done (this : nat) (doneFn : Val) : keeps_fetches (done this doneFn).
Proof.
  unfold done.
  repeat (apply keeps_fetches_bind; [auto with fetches | intros]).
  destruct (_fetch _); auto with fetches.
Qed.

Lemma keeps_fetches_deliver (p : nat) (answer : Response + Val) :
  keeps_fetches (deliver p answer).
Proof.
  destruct answer as [resp | err]; cbn [deliver].
  - apply keeps_fetches_bind; [apply keeps_fetches_new_response | intros r].
    apply keeps_fetches_modify. intros st. apply trace_settle.
  - apply keeps_fetches_modify. intros st. apply trace_settle.
Qed.

(** X15: the spec itself sends a request in [fetch] and nowhere else.
    With functions of callers that start no request of their own, the
    requests on the trace stay the same however long the event loop runs,
    and through [fromJSON], [then], [done] and the delivery of an answer; a
    [fetch] that finds request defaults adds exactly one, with the merged
    configuration and the timeout in effect. *)
Theorem requests_come_from_fetch_only (H : Host) (this : nat) (st : State) :
  (forall fuel, fetches (trace (run_jobs H fuel st)) = fetches (trace st)) /\
  (forall json, fetches (trace (snd (fromJSON H this json st))) = fetches (trace st)) /\
  (forall fn, fetches (trace (snd (then_ this fn st))) = fetches (trace st)) /\
  (forall doneFn, fetches (trace (snd (done this doneFn st))) = fetches (trace st)) /\
  (forall p answer, fetches (trace (snd (deliver p answer st))) = fetches (trace st)) /\
  (forall url params o defaults_request,
     specs st !! this = Some o ->
     get_prop (_setupDefaults o) "request" = Normal defaults_request ->
     fetches (trace (snd (fetch this url params st))) =
       fetches (trace st) ++
       [EvFetch {| req_url := url; req_init := fetchParams defaults_request params |}
          (effective_timeout o) (length (promises st))]).
Proof.
  split; [intros fuel; apply fetches_run_jobs | ].
  split; [intros json; apply keeps_fetches_fromJSON | ].
  split; [intros fn; apply keeps_fetches_then_ | ].
  split; [intros doneFn; apply keeps_fetches_done | ].
  split; [intros p answer; apply keeps_fetches_deliver | ].
  intros url params o defaults_request Hthis Hreq.
  destruct (fetch_request this url params st o defaults_request Hthis Hreq)
    as (st' & Hfetch & _ & Htrace).
  rewrite Hfetch. cbn [snd]. rewrite Htrace, fetches_app. reflexivity.
Qed.

Lemma requests_come_from_fetch_only_witness :
  let st := snd (new_FrisbySpec initial_state) in
  fetches (trace (snd (fetch 0 (VStr "/users") VUndefined st))) =
    [EvFetch {| req_url := VStr "/users"; req_init := [] |} (VNum 5000) 0].
Proof.
  intros st.
  destruct (requests_come_from_fetch_only Demo.host 0 st) as (_ & _ & _ & _ & _ & Hfetch).
  apply (Hfetch (VStr "/users") VUndefined constructor VUndefined); reflexivity.
Defined.
(** ** Timeouts, once more *)

(** X16: a timeout among the shared request defaults shadows the setter.
    After [timeout(t)] with a truthy [t], the getter answers the shared
    default timeout when that is set and [t] only otherwise, and a [fetch]
    hands the same value to the transport.  A [setup] that succeeds after
    [timeout(t)] discards [t]: it leaves the spec as it would have without
    the earlier call. *)
Theorem shared_timeout_shadows_setter (H : Host) (this : nat) (t opts replace : Val)
    (url params : Val) (o : FrisbySpec) (st : State) (defaults_request : Val) :
  truthy t = true ->
  specs st !! this = Some o ->
  get_prop (_setupDefaults o) "request" = Normal defaults_request ->
  let chosen := js_or (shared_timeout (_setupDefaults o)) t in
  timeout this t o = (Normal (VSpec this), with_timeout t o) /\
  timeout this VUndefined (with_timeout t o) = (Normal chosen, with_timeout t o) /\
  trace (snd ((on_spec this (timeout this t) ;;; fetch this url params) st)) =
    trace st ++
    [EvFetch {| req_url := url; req_init := fetchParams defaults_request params |}
       chosen (length (promises st))] /\
  (lacks_request (resulting_defaults H opts replace o) = false ->
   setup H this opts replace (with_timeout t o) = setup H this opts replace o).
Proof.
  intros Ht Hthis Hreq chosen.
  assert (Hobj : is_nullish (_setupDefaults o) = false)
    by (destruct (_setupDefaults o); simpl in *; congruence).
  assert (Hset : timeout this t o = (Normal (VSpec this), with_timeout t o)).
  { unfold timeout. rewrite Ht. reflexivity. }
  split; [exact Hset | ].
  split; [apply (timeout_getter this (with_timeout t o)); exact Hobj | ].
  split.
  - rewrite bind_unfold.
    assert (Hon : on_spec this (timeout this t) st =
              (Normal (VSpec this), set_specs (<[this := with_timeout t o]> (specs st)) st)).
    { unfold on_spec. rewrite (spec_of_lookup _ _ _ Hthis), Hset. reflexivity. }
    rewrite Hon.
    match goal with |- context [fetch this url params ?s] =>
      destruct (fetch_request this url params s (with_timeout t o) defaults_request)
        as (st' & Hfetch & _ & Htrace)
    end.
    + cbn [specs set_specs]. apply list_lookup_insert_eq.
      eapply lookup_lt_Some. exact Hthis.
    + exact Hreq.
    + rewrite Hfetch. cbn [snd]. rewrite Htrace. reflexivity.
  - intros Hlacks. unfold lacks_request, resulting_defaults in Hlacks. unfold setup.
    cbn [_setupDefaults with_timeout with_setupDefaults].
    destruct (get_prop (if truthy replace then opts else merge H (_setupDefaults o) opts)
                "request") as [request | e]; [ | discriminate].
    destruct (get_prop request "timeout") as [t' | e] eqn:Htimeout; [reflexivity | ].
    destruct request; simpl in *; discriminate.
Qed.

Lemma shared_timeout_shadows_setter_witness :
  let o := with_setupDefaults (VObj [("request", VObj [("timeout", VNum 10)])]) constructor in
  timeout 0 VUndefined (with_timeout (VNum 250) o) = (Normal (VNum 10), with_timeout (VNum 250) o) /\
  timeout 0 VUndefined (with_timeout (VNum 250) constructor) =
    (Normal (VNum 250), with_timeout (VNum 250) constructor).
Proof.
  intros o.
  destruct (shared_timeout_shadows_setter Demo.host 0 (VNum 250) VUndefined VUndefined
              VUndefined VUndefined o (set_specs [o] initial_state)
              (VObj [("timeout", VNum 10)]))
    as (_ & Hshared & _); [reflexivity | reflexivity | reflexivity | ].
  destruct (shared_timeout_shadows_setter Demo.host 0 (VNum 250) VUndefined VUndefined
              VUndefined VUndefined constructor (set_specs [constructor] initial_state)
              VUndefined)
    as (_ & Hown & _); [reflexivity | reflexivity | reflexivity | ].
  split; [exact Hshared | exact Hown].
Defined.

(** ** The test for JSON *)

(** X17: the test [has('Content-Type') && ~get('Content-Type').indexOf('json')]
    holds exactly when the response has a Content-Type header whose value
    contains [json], in lower case and at any position. *)
Theorem declares_json_iff_contains (hs : list (string * string)) :
  declares_json hs = true <->
  exists ct, header_lookup "content-type" hs = Some ct /\ contains ct "json" = true.
Proof.
  unfold declares_json, headers_has, headers_get, indexOf, contains.
  change (lower "Content-Type") with "content-type".
  destruct (header_lookup "content-type" hs) as [ct | ].
  - cbn [andb]. destruct (String.index 0 "json" ct) as [i | ] eqn:Hindex.
    + split; [intros _; exists ct; rewrite Hindex; split; reflexivity | intros _].
      cbn [truthy]. apply negb_true_iff, Z.eqb_neq. unfold Z.lnot. lia.
    + split; [discriminate | ].
      intros (ct' & Hct & Hno). injection Hct as <-. rewrite Hindex in Hno.
      discriminate.
  - split; [discriminate | ].
    intros (ct' & Hct & _). discriminate.
Qed.

Lemma declares_json_iff_contains_witness :
  contains "application/json; charset=utf-8" "json" = true /\
  declares_json (res_headers Fixture.users_response) = true.
Proof.
  split; [reflexivity | ].
  apply (proj2 (declares_json_iff_contains (res_headers Fixture.users_response))).
  exists "application/json; charset=utf-8". split; reflexivity.
Defined.
(** ** Starts that fail *)

Lemma fetch_without_defaults (this : nat) (url params : Val) (st : State) (o : FrisbySpec) :
  specs st !! this = Some o ->
  is_nullish (_setupDefaults o) = true ->
  is_TypeError (fst (fetch this url params st)) = true /\
  snd (fetch this url params st) = st.
Proof.
  intros Hthis Hnull. unfold fetch. rewrite bind_gets, (spec_of_lookup _ _ _ Hthis).
  destruct (_setupDefaults o); try discriminate; split; reflexivity.
Qed.

(** X18: a start that fails leaves no trace.  On a spec whose shared
    defaults are [undefined] or [null], which is where [setup] with a
    truthy [replace] and such options leaves them while it throws, [fetch]
    and the verbs built on it throw a TypeError before anything is stored
    or sent; so does [fromJSON] on a value that has no JSON text.  In each
    case the state is the one before the call, and the spec has still not
    been started if it was not before. *)
Theorem failed_start_leaves_no_trace (H : Host) (this : nat) (method : string)
    (url params json : Val) (st : State) (o : FrisbySpec) :
  specs st !! this = Some o ->
  (forall opts replace, truthy replace = true -> is_nullish opts = true ->
     is_TypeError (fst (setup H this opts replace o)) = true /\
     is_nullish (_setupDefaults (snd (setup H this opts replace o))) = true) /\
  (is_nullish (_setupDefaults o) = true ->
     is_TypeError (fst (fetch this url params st)) = true /\
     snd (fetch this url params st) = st /\
     is_TypeError (fst (get this url st)) = true /\
     snd (get this url st) = st /\
     is_TypeError (fst (del this url st)) = true /\
     snd (del this url st) = st /\
     is_TypeError (fst (_requestWithBody H this method url params st)) = true /\
     snd (_requestWithBody H this method url params st) = st) /\
  (JSON_stringify H json = None ->
     is_TypeError (fst (fromJSON H this json st)) = true /\
     snd (fromJSON H this json st) = st).
Proof.
  intros Hthis. split; [ | split].
  - intros opts replace Hreplace Hnull. unfold setup. rewrite Hreplace.
    cbn [_setupDefaults with_setupDefaults].
    destruct opts; try discriminate; split; reflexivity.
  - intros Hnull. unfold get, del, _requestWithBody.
    repeat split; apply (fetch_without_defaults this _ _ st o Hthis Hnull).
  - intros Hjson. unfold fromJSON. rewrite Hjson. split; reflexivity.
Qed.

Lemma failed_start_leaves_no_trace_witness :
  let o := snd (setup Demo.host 0 VNull (VBool true) constructor) in
  let st := set_specs [o] initial_state in
  is_nullish (_setupDefaults o) = true /\
  is_TypeError (fst (fetch 0 (VStr "/users") VUndefined st)) = true /\
  snd (fromJSON Demo.host 0 VUndefined st) = st.
Proof.
  intros o st.
  destruct (failed_start_leaves_no_trace Demo.host 0 "POST" (VStr "/users") VUndefined
              VUndefined st o)
    as (_ & Hfetch & HfromJSON); [reflexivity | ].
  destruct Hfetch as (Hthrows & _); [reflexivity | ].
  destruct HfromJSON as (_ & Hstate); [reflexivity | ].
  split; [reflexivity | split; [exact Hthrows | exact Hstate]].
Defined.

(** ** Assertions added at rest *)


(** ** What a continuation returns *)

Lemma run_job_direct (H : Host) (s f : nat) (v r : Val) (d : nat) (st : State) :
  async_result (_lastResult (spec_of s st)) = false ->
  (forall st', fn_body H f st' [v] = Normal r) ->
  run_job H (ReactionJob (VClosure (ThenCb s (VFun f))) true v d) st =
    resolve d (if truthy r then r else v)
      (set_specs (alter (with_lastResult r) s (specs st))
         (set_trace (trace st ++ [EvCall f [v]]) st)).
Proof.
  intros Hlast Hf. cbn [run_job is_callable].
  rewrite (then_callback_direct H s (VFun f) v st Hlast), call_function, Hf.
  reflexivity.
Qed.

(** X20: what a continuation returns is not handed to the next one, unless
    it is a promise or a spec.  On a started spec whose root task is
    fulfilled with [responseBody], when the continuation [f] returns a value
    [r] that is not asynchronous, the spec records [r] as its last result
    and the promise of that callback resolves to it, yet the continuation
    [g] chained after [f] is called on [responseBody], as [f] was. *)
Theorem plain_result_is_not_passed_on (H : Host) (this p f g : nat)
    (responseBody r : Val) (st : State) :
  _fetch (spec_of this st) = Some p ->
  fulfilled_value st p = Some responseBody ->
  async_result (_lastResult (spec_of this st)) = false ->
  jobs st = [] ->
  (forall st', fn_body H f st' [responseBody] = Normal r) ->
  async_result r = false ->
  let st1 := snd (bind (then_ this (VFun f)) (fun _ => then_ this (VFun g)) st) in
  fst (call H (VClosure (ThenCb this (VFun f))) [responseBody] st) =
    Normal (if truthy r then r else responseBody) /\
  _lastResult (spec_of this (run_jobs H 1 st1)) = r /\
  trace (run_jobs H 1 st1) = trace st ++ [EvCall f [responseBody]] /\
  trace (run_jobs H 2 st1) =
    trace st ++ [EvCall f [responseBody]; EvCall g [responseBody]].
Proof.
  intros Hfetch Hroot Hlast Hidle Hf Hr st1.
  assert (Hthis : exists o, specs st !! this = Some o).
  { unfold spec_of in Hfetch. destruct (specs st !! this) as [o | ]; [eauto | discriminate]. }
  destruct Hthis as [o Hthis].
  split.
  { rewrite then_callback_direct by exact Hlast.
    rewrite call_function, Hf. reflexivity. }
  set (d := length (promises st)).
  assert (HsA : then_ this (VFun f) st =
    (Normal (VSpec this),
     set_promises
       (promises st ++
        [{| pstate := Pending;
            reactions := [{| onFulfilled := VUndefined;
                             onRejected := VClosure (ErrorHandler (Some this));
                             derived := S d |}] |};
         {| pstate := Pending; reactions := [] |}])
       (set_jobs (jobs st ++ [ReactionJob (VClosure (ThenCb this (VFun f))) true responseBody d])
          st)))
    by (apply then__on_fulfilled with (p := p) (v := responseBody); auto).
  subst st1. rewrite bind_unfold, HsA.
  match goal with |- context [then_ this (VFun g) ?s] => set (sA := s) end.
  assert (HrootA : fulfilled_value sA p = Some responseBody).
  { subst sA. unfold fulfilled_value in *. cbn [promises set_promises set_jobs].
    destruct (promises st !! p) as [c | ] eqn:Hp; [ | discriminate].
    rewrite (lookup_app_l_Some _ _ _ _ Hp). exact Hroot. }
  rewrite then__on_fulfilled with (p := p) (v := responseBody);
    [ | reflexivity | exact Hfetch | exact HrootA ].
  cbn [snd].
  set (jg := ReactionJob (VClosure (ThenCb this (VFun g))) true responseBody
               (length (promises sA))).
  match goal with |- context [run_jobs H 1 ?s] => set (st1 := s) end.
  assert (Hjobs1 : jobs st1 =
            [ReactionJob (VClosure (ThenCb this (VFun f))) true responseBody d; jg]).
  { subst st1 sA. cbn [jobs set_promises set_jobs]. rewrite Hidle. reflexivity. }
  assert (Hspecs1 : specs st1 = specs st) by reflexivity.
  assert (Htrace1 : trace st1 = trace st) by reflexivity.
  rewrite !run_jobs_S, Hjobs1.
  rewrite (run_job_direct H this f responseBody r d (set_jobs [jg] st1));
    [ | unfold spec_of; cbn [specs set_jobs]; rewrite Hspecs1; exact Hlast | exact Hf ].
  match goal with |- context [resolve d ?x ?s] =>
    destruct (jobs_resolve d x s) as [more Hmore];
    pose proof (specs_resolve d x s) as HspecsB;
    pose proof (trace_resolve d x s) as HtraceB;
    set (sB := resolve d x s) in *
  end.
  cbn [jobs trace specs set_jobs set_specs set_trace app] in Hmore, HspecsB, HtraceB.
  rewrite Hspecs1 in HspecsB. rewrite Htrace1 in HtraceB.
  change (run_jobs H 0 ?s) with s.
  assert (HlastB : forall js, _lastResult (spec_of this (set_jobs js sB)) = r).
  { intros js. unfold spec_of. cbn [specs set_jobs]. rewrite HspecsB.
    rewrite list_lookup_alter_eq, Hthis. reflexivity. }
  split.
  { rewrite <- (HlastB (jobs sB)). destruct sB; reflexivity. }
  split; [exact HtraceB | ].
  rewrite run_jobs_S, Hmore. cbn [app]. unfold jg.
  change (run_jobs H 0 ?s) with s.
  rewrite run_job_calls_continuation.
  - cbn [trace set_jobs]. rewrite HtraceB, <- app_assoc. reflexivity.
  - rewrite HlastB. exact Hr.
Qed.

Lemma plain_result_is_not_passed_on_witness :
  let five :=
    {| fn_body := fun id _ _ => if Nat.eqb id 0 then Normal (VNum 5) else Normal VUndefined;
       fail_defined := true; expect_defined := true;
       JSON_stringify := Demo.stringify; JSON_parse := Demo.parse;
       merge := Demo.deep_merge |} in
  let st := run_jobs five 10
              (snd (fromJSON five 0 (VNum 7) (set_specs [constructor] initial_state))) in
  let st1 := snd (bind (then_ 0 (VFun 0)) (fun _ => then_ 0 (VFun 1)) st) in
  jobs st = [] /\
  _lastResult (spec_of 0 (run_jobs five 1 st1)) = VNum 5 /\
  trace (run_jobs five 2 st1) = [EvCall 0 [VNum 7]; EvCall 1 [VNum 7]].
Proof.
  intros five st st1.
  destruct (plain_result_is_not_passed_on five 0 3 0 1 (VNum 7) (VNum 5) st)
    as (_ & Hlast & _ & Htrace).
  - reflexivity.
  - reflexivity.
  - reflexivity.
  - vm_compute. reflexivity.
  - intros st'. reflexivity.
  - reflexivity.
  - split; [vm_compute; reflexivity | split; [exact Hlast | exact Htrace]].
Defined.
